(** * The duplex streaming session controller of [App.tsx]

    A shallow embedding of the session controller that the React component
    [App] implements: the bounded message log ([addMessage]), the gapless
    playback scheduler inside the agent [onmessage] callback, the
    transcription callbacks, the audio and frame pumps, and the lifecycle
    functions [startAnalysis] and [stopCapture].

    Conventions.
    - The component's [useState] cells form the record [View], its
      [useRef] cells the record [Refs]; what the browser owns (media
      tracks, timers, sockets, audio source nodes) is the record [World].
    - Time on the output [AudioContext] is counted in sample frames of
      that context (it is created with [sampleRate: 24000] and decoded
      buffers use the same rate), so [currentTime] and [duration] are
      integers here: seconds are frames / 24000.
    - A function that can raise returns an [Outcome]; the state carried by
      [Threw] is the state at the moment of the throw, because writes made
      before a JavaScript exception stay in place.
    - The [<video>] and [<canvas>] elements are rendered unconditionally,
      so [videoRef.current] and [canvasRef.current] are always present. *)

From Stdlib Require Import ZArith String List Lia.
From stdpp Require Import base gmap sets list strings.
Import ListNotations.

Local Open Scope string_scope.
Local Open Scope list_scope.
Local Open Scope Z_scope.

#[local] Set Warnings "-clear-no-such-hyp".

(** ** Data *)

(** Modelled from the spec: [types.ts] is not part of the sources at hand;
    the four members are the ones [App.tsx] uses (spec section 3:
    Disconnected/Connecting/Active/Error). *)
Inductive ConnectionStatus : Type :=
  | DISCONNECTED | CONNECTING | CONNECTED | ERROR.

Inductive Role : Type := user | assistant.

Inductive Mode : Type := screen | camera.

(** Modelled from the spec: the [Message] interface of [types.ts]; the
    three fields are the ones [addMessage] writes. *)
Record Message : Type := mkMessage {
  role : Role;
  text : string;
  timestamp : Z
}.

#[global] Instance ConnectionStatus_eq_dec : EqDecision ConnectionStatus.
Proof. solve_decision. Defined.
#[global] Instance Role_eq_dec : EqDecision Role.
Proof. solve_decision. Defined.
#[global] Instance Mode_eq_dec : EqDecision Mode.
Proof. solve_decision. Defined.
#[global] Instance Message_eq_dec : EqDecision Message.
Proof. solve_decision. Defined.

(** A [MediaStream] is the list of its tracks ([getTracks()]). *)
Definition MediaStream : Type := list nat.

(** The promise stored in [sessionPromiseRef]: the frame timer and the
    audio processor only exist after [await sessionPromise] has returned
    or thrown, so the promise is always settled when they look at it. *)
Inductive SessionPromise : Type :=
  | Fulfilled (session : nat)
  | Rejected (reason : string).

(** What a call did: it returned, or it raised [e]. *)
Inductive Outcome (A : Type) : Type :=
  | Returned (a : A)
  | Threw (e : string) (a : A).
Arguments Returned {A} a.
Arguments Threw {A} e a.

Definition outcome_state {A} (o : Outcome A) : A :=
  match o with Returned a => a | Threw _ a => a end.

Definition returned {A} (o : Outcome A) : bool :=
  match o with Returned _ => true | Threw _ _ => false end.

(** One [source.start(when)] call on the output context. *)
Record Segment : Type := mkSegment {
  seg_source : nat;
  seg_start : Z;
  seg_duration : Z
}.

Definition seg_end (g : Segment) : Z := seg_start g + seg_duration g.

(** The [useState] cells. *)
Record View : Type := mkView {
  status : ConnectionStatus;
  messages : list Message;
  isCapturing : bool;
  isSpeaking : bool;
  errorMsg : option string;
  mode : Mode;
  userTranscript : string
}.

(** The [useRef] cells. [videoSrcObject] is [videoRef.current.srcObject]. *)
Record Refs : Type := mkRefs {
  videoSrcObject : option MediaStream;
  sessionRef : option nat;
  sessionPromiseRef : option SessionPromise;
  deepgramConnectionRef : option nat;
  inputAudioContextRef : bool;
  outputAudioContextRef : bool;
  audioOutputNodeRef : bool;
  nextStartTimeRef : Z;
  sourcesRef : gset nat;
  micStreamRef : option MediaStream;
  captureIntervalRef : option positive
}.

(** The browser side. [faultyClose] lists the connections whose
    [close()] / [finish()] raises; [playing] the source nodes that were
    started and have neither ended nor been stopped; [scheduled] the
    [start] calls in the order they were made. *)
Record World : Type := mkWorld {
  liveTracks : gset nat;
  timers : gset positive;
  openConns : gset nat;
  faultyClose : gset nat;
  playing : gset nat;
  scheduled : list Segment;
  nextSource : nat
}.

Record State : Type := mkState {
  view : View;
  refs : Refs;
  world : World
}.

(** *** Field updates *)

Definition upd_view (f : View -> View) (s : State) : State :=
  mkState (f (view s)) (refs s) (world s).
Definition upd_refs (f : Refs -> Refs) (s : State) : State :=
  mkState (view s) (f (refs s)) (world s).
Definition upd_world (f : World -> World) (s : State) : State :=
  mkState (view s) (refs s) (f (world s)).

Definition setStatus (x : ConnectionStatus) : State -> State :=
  upd_view (fun v => mkView x (messages v) (isCapturing v) (isSpeaking v)
                            (errorMsg v) (mode v) (userTranscript v)).
Definition setMessages (f : list Message -> list Message) : State -> State :=
  upd_view (fun v => mkView (status v) (f (messages v)) (isCapturing v)
                            (isSpeaking v) (errorMsg v) (mode v)
                            (userTranscript v)).
Definition setIsCapturing (x : bool) : State -> State :=
  upd_view (fun v => mkView (status v) (messages v) x (isSpeaking v)
                            (errorMsg v) (mode v) (userTranscript v)).
Definition setIsSpeaking (x : bool) : State -> State :=
  upd_view (fun v => mkView (status v) (messages v) (isCapturing v) x
                            (errorMsg v) (mode v) (userTranscript v)).
Definition setErrorMsg (x : option string) : State -> State :=
  upd_view (fun v => mkView (status v) (messages v) (isCapturing v)
                            (isSpeaking v) x (mode v) (userTranscript v)).
Definition setUserTranscript (x : string) : State -> State :=
  upd_view (fun v => mkView (status v) (messages v) (isCapturing v)
                            (isSpeaking v) (errorMsg v) (mode v) x).

Definition set_videoSrcObject (x : option MediaStream) : State -> State :=
  upd_refs (fun r => mkRefs x (sessionRef r) (sessionPromiseRef r)
    (deepgramConnectionRef r) (inputAudioContextRef r)
    (outputAudioContextRef r) (audioOutputNodeRef r) (nextStartTimeRef r)
    (sourcesRef r) (micStreamRef r) (captureIntervalRef r)).
Definition set_sessionRef (x : option nat) : State -> State :=
  upd_refs (fun r => mkRefs (videoSrcObject r) x (sessionPromiseRef r)
    (deepgramConnectionRef r) (inputAudioContextRef r)
    (outputAudioContextRef r) (audioOutputNodeRef r) (nextStartTimeRef r)
    (sourcesRef r) (micStreamRef r) (captureIntervalRef r)).
Definition set_sessionPromiseRef (x : option SessionPromise) : State -> State :=
  upd_refs (fun r => mkRefs (videoSrcObject r) (sessionRef r) x
    (deepgramConnectionRef r) (inputAudioContextRef r)
    (outputAudioContextRef r) (audioOutputNodeRef r) (nextStartTimeRef r)
    (sourcesRef r) (micStreamRef r) (captureIntervalRef r)).
Definition set_deepgramConnectionRef (x : option nat) : State -> State :=
  upd_refs (fun r => mkRefs (videoSrcObject r) (sessionRef r)
    (sessionPromiseRef r) x (inputAudioContextRef r)
    (outputAudioContextRef r) (audioOutputNodeRef r) (nextStartTimeRef r)
    (sourcesRef r) (micStreamRef r) (captureIntervalRef r)).
Definition set_inputAudioContextRef (x : bool) : State -> State :=
  upd_refs (fun r => mkRefs (videoSrcObject r) (sessionRef r)
    (sessionPromiseRef r) (deepgramConnectionRef r) x
    (outputAudioContextRef r) (audioOutputNodeRef r) (nextStartTimeRef r)
    (sourcesRef r) (micStreamRef r) (captureIntervalRef r)).
Definition set_outputAudio (x : bool) : State -> State :=
  upd_refs (fun r => mkRefs (videoSrcObject r) (sessionRef r)
    (sessionPromiseRef r) (deepgramConnectionRef r) (inputAudioContextRef r)
    x x (nextStartTimeRef r)
    (sourcesRef r) (micStreamRef r) (captureIntervalRef r)).
Definition set_nextStartTimeRef (x : Z) : State -> State :=
  upd_refs (fun r => mkRefs (videoSrcObject r) (sessionRef r)
    (sessionPromiseRef r) (deepgramConnectionRef r) (inputAudioContextRef r)
    (outputAudioContextRef r) (audioOutputNodeRef r) x
    (sourcesRef r) (micStreamRef r) (captureIntervalRef r)).
Definition set_sourcesRef (x : gset nat) : State -> State :=
  upd_refs (fun r => mkRefs (videoSrcObject r) (sessionRef r)
    (sessionPromiseRef r) (deepgramConnectionRef r) (inputAudioContextRef r)
    (outputAudioContextRef r) (audioOutputNodeRef r) (nextStartTimeRef r)
    x (micStreamRef r) (captureIntervalRef r)).
Definition set_micStreamRef (x : option MediaStream) : State -> State :=
  upd_refs (fun r => mkRefs (videoSrcObject r) (sessionRef r)
    (sessionPromiseRef r) (deepgramConnectionRef r) (inputAudioContextRef r)
    (outputAudioContextRef r) (audioOutputNodeRef r) (nextStartTimeRef r)
    (sourcesRef r) x (captureIntervalRef r)).
Definition set_captureIntervalRef (x : option positive) : State -> State :=
  upd_refs (fun r => mkRefs (videoSrcObject r) (sessionRef r)
    (sessionPromiseRef r) (deepgramConnectionRef r) (inputAudioContextRef r)
    (outputAudioContextRef r) (audioOutputNodeRef r) (nextStartTimeRef r)
    (sourcesRef r) (micStreamRef r) x).

Definition set_liveTracks (x : gset nat) : State -> State :=
  upd_world (fun w => mkWorld x (timers w) (openConns w) (faultyClose w)
                              (playing w) (scheduled w) (nextSource w)).
Definition set_timers (x : gset positive) : State -> State :=
  upd_world (fun w => mkWorld (liveTracks w) x (openConns w) (faultyClose w)
                              (playing w) (scheduled w) (nextSource w)).
Definition set_openConns (x : gset nat) : State -> State :=
  upd_world (fun w => mkWorld (liveTracks w) (timers w) x (faultyClose w)
                              (playing w) (scheduled w) (nextSource w)).
Definition set_playing (x : gset nat) : State -> State :=
  upd_world (fun w => mkWorld (liveTracks w) (timers w) (openConns w)
                              (faultyClose w) x (scheduled w) (nextSource w)).
Definition set_scheduled (x : list Segment) : State -> State :=
  upd_world (fun w => mkWorld (liveTracks w) (timers w) (openConns w)
                              (faultyClose w) (playing w) x (nextSource w)).
Definition set_nextSource (x : nat) : State -> State :=
  upd_world (fun w => mkWorld (liveTracks w) (timers w) (openConns w)
                              (faultyClose w) (playing w) (scheduled w) x).

(** The component as first rendered (lines 13-33), in a browser [w]. *)
Definition initialRefs : Refs :=
  mkRefs None None None None false false false 0 ∅ None None.
Definition initialView : View :=
  mkView DISCONNECTED [] false false None screen "".
Definition initialState (w : World) : State :=
  mkState initialView initialRefs w.

(** ** MessageLog: [addMessage] (lines 41-52) *)

(** [arr.slice(-n)]: the last [n] elements, all of them when there are
    fewer. *)
Definition slice_last {A} (n : nat) (l : list A) : list A :=
  drop (length l - n) l.

(** [{ ...last, text: last.text + text }] *)
Definition extend (m : Message) (t : string) : Message :=
  mkMessage (role m) (text m +:+ t) (timestamp m).

(** The updater handed to [setMessages]; [now] is [Date.now()]. The guard
    [!text] is taken by the empty string. *)
Definition addMessage (now : Z) (r : Role) (t : string)
    (prev : list Message) : list Message :=
  if decide (t = "") then prev
  else
    match last prev with
    | Some l =>
        if bool_decide (role l = r) && bool_decide (r = assistant) then
          slice_last 5 (<[ (length prev - 1)%nat := extend l t ]> prev)
        else slice_last 5 (prev ++ [mkMessage r t now])
    | None => slice_last 5 (prev ++ [mkMessage r t now])
    end.

(** A run of appends, oldest first. *)
Definition addMessages (ops : list (Z * Role * string))
    (log : list Message) : list Message :=
  foldl (fun acc op => addMessage op.1.1 op.1.2 op.2 acc) log ops.

(** ** PlaybackScheduler: the audio branch of [onmessage] (lines 159-175) *)

(** Lines 161-163, up to the [await]: [currentTime] is [ctx.currentTime]. *)
Definition enqueue_begin (currentTime : Z) (s : State) : State :=
  let s := setIsSpeaking true s in
  set_nextStartTimeRef (Z.max (nextStartTimeRef (refs s)) currentTime) s.

(** Lines 165-174, once [decodeAudioData] has delivered a buffer of
    [duration] frames: a fresh source node is started at the scheduling
    clock, the clock advances by the duration, the node joins the set. *)
Definition enqueue_resume (duration : Z) (s : State) : State :=
  let source := nextSource (world s) in
  let s := set_nextSource (S source) s in
  let s := set_scheduled
             (scheduled (world s)
                ++ [mkSegment source (nextStartTimeRef (refs s)) duration]) s in
  let s := set_playing ({[source]} ∪ playing (world s)) s in
  let s := set_nextStartTimeRef (nextStartTimeRef (refs s) + duration) s in
  set_sourcesRef ({[source]} ∪ sourcesRef (refs s)) s.

(** An enqueue whose decode is not interleaved with another callback. *)
Definition enqueue (currentTime duration : Z) (s : State) : State :=
  enqueue_resume duration (enqueue_begin currentTime s).

(** A run of such enqueues, each a pair (clock at arrival, duration). *)
Definition enqueues (l : list (Z * Z)) (s : State) : State :=
  foldl (fun acc p => enqueue p.1 p.2 acc) s l.

(** The ['ended'] listener of a source (lines 168-171); the browser runs
    it when the node has played to its end. *)
Definition source_ended (source : nat) (s : State) : State :=
  let s := set_playing (playing (world s) ∖ {[source]}) s in
  let s := set_sourcesRef (sourcesRef (refs s) ∖ {[source]}) s in
  if decide (size (sourcesRef (refs s)) = 0%nat) then setIsSpeaking false s
  else s.

(** [s.stop()] on a source node, on the set of playing nodes. It is taken
    to raise on every node that is not playing, which covers the nodes
    that already finished. *)
Definition source_stop (source : nat) (p : gset nat) : option (gset nat) :=
  if decide (source ∈ p) then Some (p ∖ {[source]}) else None.

(** [try { s.stop(); } catch(e){}] *)
Definition try_source_stop (p : gset nat) (source : nat) : gset nat :=
  default p (source_stop source p).

(** The [interrupted] branch (lines 178-183). *)
Definition purge (s : State) : State :=
  let s := set_playing
             (foldl try_source_stop (playing (world s))
                    (elements (sourcesRef (refs s)))) s in
  let s := set_sourcesRef ∅ s in
  let s := set_nextStartTimeRef 0 s in
  setIsSpeaking false s.

(** ** AgentSessionController: [onmessage], [onopen] (lines 154-184) *)

(** The parts of a [LiveServerMessage] the callback reads:
    [inlineData] is [serverContent.modelTurn.parts[0].inlineData.data],
    [outputTranscription] the [text] of [serverContent.outputTranscription]
    when that object is there. *)
Record LiveServerMessage : Type := mkLiveServerMessage {
  inlineData : option string;
  outputTranscription : option string;
  interrupted : bool
}.

(** Line 160. *)
Definition audio_guard (m : LiveServerMessage) (s : State) : bool :=
  match inlineData m with
  | Some b => bool_decide (b <> "")
  | None => false
  end && outputAudioContextRef (refs s) && audioOutputNodeRef (refs s).

(** Lines 177-183. *)
Definition onmessage_tail (now : Z) (m : LiveServerMessage) (s : State) : State :=
  let s := match outputTranscription m with
           | Some t => setMessages (addMessage now assistant t) s
           | None => s
           end in
  if interrupted m then purge s else s.

(** The whole callback, run without interleaving. [decoded] is what
    [decodeAudioData] delivers: a duration, or [None] when it rejects, in
    which case the rest of the callback does not run. *)
Definition onmessage (currentTime : Z) (decoded : option Z) (now : Z)
    (m : LiveServerMessage) (s : State) : Outcome State :=
  if audio_guard m s then
    let s := enqueue_begin currentTime s in
    match decoded with
    | Some d => Returned (onmessage_tail now m (enqueue_resume d s))
    | None => Threw "decodeAudioData" s
    end
  else Returned (onmessage_tail now m s).

Definition agent_onopen (s : State) : State :=
  setIsCapturing true (setStatus CONNECTED s).

(** ** TranscriptionSessionController (lines 130-142) *)

Record TranscriptEvent : Type := mkTranscriptEvent {
  transcript : string;
  is_final : bool;
  speech_final : bool
}.

Definition deepgram_on_transcript (now : Z) (data : TranscriptEvent)
    (s : State) : State :=
  if decide (transcript data = "") then s
  else
    let s := setUserTranscript (transcript data) s in
    if is_final data && speech_final data then
      setUserTranscript "" (setMessages (addMessage now user (transcript data)) s)
    else s.

Definition transcription_error_message : string :=
  "Erro na transcrição de voz. Verifique a chave da API Deepgram.".

Definition deepgram_on_error (s : State) : State :=
  setErrorMsg (Some transcription_error_message) s.

(** ** SessionLifecycle: [stopCapture] (lines 54-77) *)

(** [stream.getTracks().forEach(t => t.stop())] *)
Definition stop_tracks (ms : MediaStream) (s : State) : State :=
  set_liveTracks (foldl (fun live t => live ∖ {[t]}) (liveTracks (world s)) ms) s.

Definition clearInterval (id : positive) (s : State) : State :=
  set_timers (timers (world s) ∖ {[id]}) s.

(** [close()] of the agent session and [finish()] of the transcription
    connection: either can raise. *)
Definition conn_close (c : nat) (s : State) : Outcome State :=
  if decide (c ∈ faultyClose (world s)) then Threw "close" s
  else Returned (set_openConns (openConns (world s) ∖ {[c]}) s).

(** Lines 73-76. *)
Definition reset_flags (s : State) : State :=
  setUserTranscript ""
    (setStatus DISCONNECTED (setIsSpeaking false (setIsCapturing false s))).

Definition stopCapture (s : State) : Outcome State :=
  let s := match captureIntervalRef (refs s) with
           | Some id => clearInterval id s
           | None => s
           end in
  let s := match micStreamRef (refs s) with
           | Some ms => stop_tracks ms s
           | None => s
           end in
  let s := match videoSrcObject (refs s) with
           | Some vs => stop_tracks vs s
           | None => s
           end in
  let s := set_videoSrcObject None s in
  let s := match sessionRef (refs s) with
           | Some c =>
               (* try { sessionRef.current.close(); } catch(e){} *)
               let s := outcome_state (conn_close c s) in
               set_sessionPromiseRef None (set_sessionRef None s)
           | None => s
           end in
  match deepgramConnectionRef (refs s) with
  | Some c =>
      match conn_close c s with
      | Returned s => Returned (reset_flags (set_deepgramConnectionRef None s))
      | Threw e s => Threw e s
      end
  | None => Returned (reset_flags s)
  end.

Definition agent_error_message : string := "Conexão Gemini interrompida.".

(** Lines 185-190. *)
Definition agent_onerror (s : State) : Outcome State :=
  stopCapture (setErrorMsg (Some agent_error_message) (setStatus ERROR s)).

Definition agent_onclose (s : State) : Outcome State := stopCapture s.

(** ** SessionLifecycle: [startAnalysis] (lines 79-240) *)

(** What the outside answers during one [startAnalysis]: whether the
    Deepgram key is configured, what the capture prompts deliver (a stream,
    or the message of the rejection), the identity of the transcription
    socket, what [ai.live.connect] settles to, and the handle that
    [setInterval] returns. *)
Record StartEnv : Type := mkStartEnv {
  env_deepgramKey : bool;
  env_displayMedia : string + MediaStream;
  env_cameraMedia : string + MediaStream;
  env_micMedia : string + MediaStream;
  env_deepgramConn : nat;
  env_agent : string + nat;
  env_timer : positive
}.

Definition missing_key_message : string :=
  "A chave da API Deepgram não foi encontrada. Verifique suas variáveis de ambiente.".

(** A granted stream: its tracks are live from now on. *)
Definition grant (ms : MediaStream) (s : State) : State :=
  set_liveTracks (list_to_set ms ∪ liveTracks (world s)) s.

Definition connect (c : nat) (s : State) : State :=
  set_openConns ({[c]} ∪ openConns (world s)) s.

Definition setInterval (id : positive) (s : State) : State :=
  set_timers ({[id]} ∪ timers (world s)) s.

(** The [try] block (lines 81-233). The video stream lives in the local
    [mediaStream] from line 114 on and reaches [videoRef] at line 198 only.
    [onopen] runs when the agent socket opens, before the promise of
    [connect] is fulfilled. *)
Definition startAnalysis_try (env : StartEnv) (s : State) : Outcome State :=
  let s := setErrorMsg None s in
  if negb (env_deepgramKey env) then Threw missing_key_message s
  else
    let s := setStatus CONNECTING s in
    let s := if outputAudioContextRef (refs s) then s
             else set_outputAudio true s in
    let s := if inputAudioContextRef (refs s) then s
             else set_inputAudioContextRef true s in
    match (match mode (view s) with
           | screen => env_displayMedia env
           | camera => env_cameraMedia env
           end) with
    | inl e => Threw e s
    | inr mediaStream =>
        let s := grant mediaStream s in
        match env_micMedia env with
        | inl e => Threw e s
        | inr micStream =>
            let s := set_micStreamRef (Some micStream) (grant micStream s) in
            let s := set_deepgramConnectionRef (Some (env_deepgramConn env))
                       (connect (env_deepgramConn env) s) in
            match env_agent env with
            | inl e => Threw e (set_sessionPromiseRef (Some (Rejected e)) s)
            | inr session =>
                let s := agent_onopen
                           (set_sessionPromiseRef (Some (Fulfilled session))
                              (connect session s)) in
                let s := set_sessionRef (Some session) s in
                let s := set_videoSrcObject (Some mediaStream) s in
                Returned (set_captureIntervalRef (Some (env_timer env))
                            (setInterval (env_timer env) s))
            end
        end
    end.

(** The [catch] (lines 235-239). *)
Definition startAnalysis (env : StartEnv) (s : State) : Outcome State :=
  match startAnalysis_try env s with
  | Returned s => Returned s
  | Threw e s => stopCapture (setStatus ERROR (setErrorMsg (Some e) s))
  end.

(** ** FrameSampler: the interval callback (lines 216-233) *)

Record VideoSurface : Type := mkVideoSurface {
  videoWidth : Z;
  videoHeight : Z
}.

(** [sendRealtimeInput({ media: { data, mimeType: 'image/jpeg' } })] on a
    session. *)
Record FrameSend : Type := mkFrameSend {
  frame_session : nat;
  frame_data : string
}.

(** The synchronous part of a tick, lines 217-225: does it hand a frame to
    [canvas.toBlob]? [has2d] tells whether [getContext('2d')] gave a
    context. *)
Definition tick_begin (has2d : bool) (video : VideoSurface) (s : State) : bool :=
  match sessionPromiseRef (refs s) with
  | None => false
  | Some _ => has2d && bool_decide (0 < videoWidth video)
  end.

(** The [toBlob] callback, lines 226-230, from the point where
    [blobToBase64] has delivered [base64Data]; [blob] is [None] when the
    encoder hands over [null]. [await null] is [null], and calling a method
    on it raises a TypeError. *)
Definition tick_encoded (blob : option string) (s : State)
    : Outcome (list FrameSend) :=
  match blob with
  | None => Returned []
  | Some base64Data =>
      match sessionPromiseRef (refs s) with
      | None => Threw "TypeError" []
      | Some (Rejected e) => Threw e []
      | Some (Fulfilled session) => Returned [mkFrameSend session base64Data]
      end
  end.

(** ** AudioIngestPipeline: [processor.onaudioprocess] (lines 204-212) *)

Section AudioIngest.
(** A block of microphone samples and the agent's media blob;
    [createAudioBlob] comes from [utils], which is not among the sources
    at hand, and is taken as given. *)
Context {Block Blob : Type}.
Variable createAudioBlob : Block -> Blob.

Inductive AudioSend : Type :=
  | ToAgent (session : nat) (media : Blob)
  | ToDeepgram (conn : nat) (raw : Block).

(** [session] is what the captured [sessionPromise] was fulfilled with;
    [getReadyState c] what the transcription socket [c] reports now. *)
Definition onaudioprocess (session : nat) (getReadyState : nat -> Z)
    (inputData : Block) (s : State) : list AudioSend :=
  ToAgent session (createAudioBlob inputData)
    :: match deepgramConnectionRef (refs s) with
       | Some c =>
           if bool_decide (getReadyState c = 1) then [ToDeepgram c inputData]
           else []
       | None => []
       end.
End AudioIngest.
Arguments AudioSend : clear implicits.
Arguments ToAgent {Block Blob} session media.
Arguments ToDeepgram {Block Blob} conn raw.

(** ** Reference definitions used in the statements *)

(** The log of spec section 4.7 before truncation: the same merge rule and
    the same empty-text guard as [addMessage], without the cut to five
    entries. *)
Definition coalesce (now : Z) (r : Role) (t : string)
    (prev : list Message) : list Message :=
  if decide (t = "") then prev
  else
    match last prev with
    | Some l =>
        if bool_decide (role l = r) && bool_decide (r = assistant) then
          <[ (length prev - 1)%nat := extend l t ]> prev
        else prev ++ [mkMessage r t now]
    | None => prev ++ [mkMessage r t now]
    end.

Definition unbounded_log (ops : list (Z * Role * string))
    (log : list Message) : list Message :=
  foldl (fun acc op => coalesce op.1.1 op.1.2 op.2 acc) log ops.

(** The segments a run of enqueues is expected to schedule, from a
    scheduling clock and the next free source node. *)
Fixpoint plan (l : list (Z * Z)) (clock : Z) (source : nat) : list Segment :=
  match l with
  | [] => []
  | p :: l' =>
      let start := Z.max clock p.1 in
      mkSegment source start p.2 :: plan l' (start + p.2) (S source)
  end.

(** The segments that the run [l] added to the schedule of [s]. *)
Definition new_segments (l : list (Z * Z)) (s : State) : list Segment :=
  drop (length (scheduled (world s))) (scheduled (world (enqueues l s))).

(** A browser with nothing going on, and a session brought up in it:
    screen track 0, microphone track 1, transcription socket 10, agent
    session 20, frame timer 1. *)
Definition quietWorld : World := mkWorld ∅ ∅ ∅ ∅ ∅ [] 0.

Definition grantedEnv : StartEnv :=
  mkStartEnv true (inr [0%nat]) (inr [0%nat]) (inr [1%nat]) 10 (inr 20%nat) 1.

Definition liveSession : State :=
  outcome_state (startAnalysis grantedEnv (initialState quietWorld)).

(** The same start, but the microphone prompt is refused after the screen
    was granted. *)
Definition micRefusedEnv : StartEnv :=
  mkStartEnv true (inr [0%nat]) (inr [0%nat]) (inl "Permission denied") 10
             (inr 20%nat) 1.

(** The tracks reachable from a stream reference. *)
Definition tracks_of (o : option MediaStream) : gset nat :=
  match o with Some ms => list_to_set ms | None => ∅ end.

Definition timer_of (o : option positive) : gset positive :=
  match o with Some id => {[id]} | None => ∅ end.

(** The agent session that [try { close() } catch] really closes. *)
Definition closed_session (w : World) (o : option nat) : gset nat :=
  match o with
  | Some c => if decide (c ∈ faultyClose w) then ∅ else {[c]}
  | None => ∅
  end.

Definition conn_of (o : option nat) : gset nat :=
  match o with Some c => {[c]} | None => ∅ end.

(** The state [stopCapture] leaves when [finish()] does not raise. *)
Definition stopped (s : State) : State :=
  let v := view s in
  let r := refs s in
  let w := world s in
  mkState
    (mkView DISCONNECTED (messages v) false false (errorMsg v) (mode v) "")
    (mkRefs None None
            (match sessionRef r with
             | Some _ => None
             | None => sessionPromiseRef r
             end)
            None (inputAudioContextRef r) (outputAudioContextRef r)
            (audioOutputNodeRef r) (nextStartTimeRef r) (sourcesRef r)
            (micStreamRef r) (captureIntervalRef r))
    (mkWorld
       (liveTracks w ∖ tracks_of (micStreamRef r) ∖ tracks_of (videoSrcObject r))
       (timers w ∖ timer_of (captureIntervalRef r))
       (openConns w ∖ closed_session w (sessionRef r)
                  ∖ conn_of (deepgramConnectionRef r))
       (faultyClose w) (playing w) (scheduled w) (nextSource w)).

Definition finish_safe (s : State) : Prop :=
  forall c, deepgramConnectionRef (refs s) = Some c -> c ∉ faultyClose (world s).

(** A session in the middle of an utterance: one 2.0 s segment enqueued at
    clock 0. *)
Definition speakingSession : State := enqueue 0 48000 liveSession.

(** A session whose agent socket raises on [close()]. *)
Definition brittleAgentSession : State :=
  outcome_state
    (startAnalysis grantedEnv
       (initialState (mkWorld ∅ ∅ ∅ {[20%nat]} ∅ [] 0))).

(** ** Runs of callbacks *)

(** A run of transcript events, oldest first, each with its [Date.now()]. *)
Definition transcripts (evs : list (Z * TranscriptEvent)) (s : State) : State :=
  foldl (fun acc e => deepgram_on_transcript e.1 e.2 acc) s evs.

(** The events of a run that carry text and are final twice over, as the
    appends they are expected to make. *)
Definition commits (evs : list (Z * TranscriptEvent)) : list (Z * Role * string) :=
  flat_map (fun e =>
    if bool_decide (transcript e.2 <> "") && is_final e.2 && speech_final e.2
    then [(e.1, user, transcript e.2)] else []) evs.

(** The interim text expected after a run that started with [buf]. *)
Definition interim (buf : string) (evs : list (Z * TranscriptEvent)) : string :=
  foldl (fun b e =>
    if bool_decide (transcript e.2 = "") then b
    else if is_final e.2 && speech_final e.2 then "" else transcript e.2)
    buf evs.

(** The ['ended'] listeners of the sources [hs], run in that order. *)
Definition ended_all (hs : list nat) (s : State) : State :=
  foldl (fun acc h => source_ended h acc) s hs.

(** The round button of the footer (lines 297-315): while not capturing it
    is the start button, while capturing the stop button. *)
Definition main_button (env : StartEnv) (s : State) : Outcome State :=
  if isCapturing (view s) then stopCapture s else startAnalysis env s.

(** What can happen to the component. Each event is run to its end
    before the next one: a press of the start button is one event, from the
    click to the end of [startAnalysis]. *)
Inductive Event : Type :=
  | MainButton (env : StartEnv)
  | AgentMessage (currentTime : Z) (decoded : option Z) (now : Z)
                 (m : LiveServerMessage)
  | AgentError
  | AgentClose
  | Transcript (now : Z) (data : TranscriptEvent)
  | DeepgramError
  | SourceEnded (source : nat).

(** One event; a callback that raises leaves the state it had reached. *)
Definition step (e : Event) (s : State) : State :=
  match e with
  | MainButton env => outcome_state (main_button env s)
  | AgentMessage currentTime decoded now m =>
      outcome_state (onmessage currentTime decoded now m s)
  | AgentError => outcome_state (agent_onerror s)
  | AgentClose => outcome_state (agent_onclose s)
  | Transcript now data => deepgram_on_transcript now data s
  | DeepgramError => deepgram_on_error s
  | SourceEnded source => source_ended source s
  end.

Definition run (es : list Event) (s : State) : State :=
  foldl (fun acc e => step e acc) s es.

(** The video request that [startAnalysis] makes in the mode of [s]. *)
Definition selected_media (env : StartEnv) (s : State) : string + MediaStream :=
  match mode (view s) with
  | screen => env_displayMedia env
  | camera => env_cameraMedia env
  end.

(** The message of the first step of [startAnalysis] that fails, if one
    does. *)
Definition start_failure (env : StartEnv) (s : State) : option string :=
  if negb (env_deepgramKey env) then Some missing_key_message
  else
    match selected_media env s with
    | inl e => Some e
    | inr _ =>
        match env_micMedia env with
        | inl e => Some e
        | inr _ =>
            match env_agent env with
            | inl e => Some e
            | inr _ => None
            end
        end
    end.


(** Does the log show two assistant entries next to each other? *)
Fixpoint adjacent_assistants (l : list Message) : bool :=
  match l with
  | [] => false
  | a :: tl =>
      (bool_decide (role a = assistant)
       && match tl with
          | b :: _ => bool_decide (role b = assistant)
          | [] => false
          end)
      || adjacent_assistants tl
  end.

(** No two neighbours of a log are both assistant entries. *)
Definition no_adjacent_assistants (l : list Message) : Prop :=
  forall i a b, l !! i = Some a -> l !! S i = Some b ->
                role a = assistant -> role b = user.

(** ** The security check on mount (lines 35-39) *)

Definition security_error_message : string :=
  "ERRO DE SEGURANÇA: O compartilhamento de tela requer conexão HTTPS.".

(** The effect run once after the first render, on [window.location]. *)
Definition security_check (protocol hostname : string) (s : State) : State :=
  if bool_decide (protocol <> "https:") && bool_decide (hostname <> "localhost")
  then setErrorMsg (Some security_error_message) s
  else s.

(** The two ways in which [startAnalysis] ends when its sockets close
    without raising. *)
Definition start_postcondition (env : StartEnv) (s s1 : State) : Prop :=
  match start_failure env s with
  | None =>
      status (view s1) = CONNECTED
      /\ isCapturing (view s1) = true
      /\ errorMsg (view s1) = None
      /\ (exists c, env_agent env = inr c /\ sessionRef (refs s1) = Some c
                    /\ sessionPromiseRef (refs s1) = Some (Fulfilled c))
      /\ deepgramConnectionRef (refs s1) = Some (env_deepgramConn env)
  | Some e =>
      status (view s1) = DISCONNECTED
      /\ isCapturing (view s1) = false
      /\ errorMsg (view s1) = Some e
      /\ sessionRef (refs s1) = None
      /\ deepgramConnectionRef (refs s1) = None
  end.

(** The session is up: connected, capturing, the agent session referenced
    and its promise fulfilled with it. *)
Definition session_up (s : State) : Prop :=
  status (view s) = CONNECTED /\ isCapturing (view s) = true
  /\ exists c, sessionRef (refs s) = Some c
               /\ sessionPromiseRef (refs s) = Some (Fulfilled c).

(** The session is down: disconnected, not capturing, no agent session
    referenced. *)
Definition session_down (s : State) : Prop :=
  status (view s) = DISCONNECTED /\ isCapturing (view s) = false
  /\ sessionRef (refs s) = None.

(** ** Proof automation *)

(** Unfolds the field updates down to record constructors. *)
Ltac run_setters :=
  cbv [reset_flags stop_tracks clearInterval grant connect setInterval
       setStatus setMessages setIsCapturing setIsSpeaking setErrorMsg
       setUserTranscript set_videoSrcObject set_sessionRef
       set_sessionPromiseRef set_deepgramConnectionRef
       set_inputAudioContextRef set_outputAudio set_nextStartTimeRef
       set_sourcesRef set_micStreamRef set_captureIntervalRef set_liveTracks
       set_timers set_openConns set_playing set_scheduled set_nextSource
       upd_view upd_refs upd_world
       view refs world] in *.

(** Reduces a [startAnalysis] on explicit records down to the state it
    builds. *)
Ltac start_cbn :=
  cbn [startAnalysis startAnalysis_try start_failure selected_media negb
       env_deepgramKey env_displayMedia env_cameraMedia env_micMedia
       env_deepgramConn env_agent env_timer
       grant connect setInterval agent_onopen stopped finish_safe
       setStatus setMessages setIsCapturing setIsSpeaking setErrorMsg
       setUserTranscript set_videoSrcObject set_sessionRef
       set_sessionPromiseRef set_deepgramConnectionRef
       set_inputAudioContextRef set_outputAudio set_nextStartTimeRef
       set_sourcesRef set_micStreamRef set_captureIntervalRef set_liveTracks
       set_timers set_openConns set_playing set_scheduled set_nextSource
       upd_view upd_refs upd_world view refs world
       status messages isCapturing isSpeaking errorMsg mode userTranscript
       videoSrcObject sessionRef sessionPromiseRef deepgramConnectionRef
       inputAudioContextRef outputAudioContextRef audioOutputNodeRef
       nextStartTimeRef sourcesRef micStreamRef captureIntervalRef
       liveTracks timers openConns faultyClose playing scheduled nextSource
       tracks_of timer_of conn_of outcome_state returned].

(** * Properties *)

(** The session brought up by [grantedEnv]: connected and capturing, both
    tracks live, both sockets open and referenced, the frame timer set. *)
Example liveSession_is_active :
  status (view liveSession) = CONNECTED
  /\ isCapturing (view liveSession) = true
  /\ errorMsg (view liveSession) = None
  /\ liveTracks (world liveSession) = {[0%nat; 1%nat]}
  /\ openConns (world liveSession) = {[10%nat; 20%nat]}
  /\ timers (world liveSession) = {[1%positive]}
  /\ videoSrcObject (refs liveSession) = Some [0%nat]
  /\ micStreamRef (refs liveSession) = Some [1%nat]
  /\ sessionRef (refs liveSession) = Some 20%nat
  /\ sessionPromiseRef (refs liveSession) = Some (Fulfilled 20)
  /\ deepgramConnectionRef (refs liveSession) = Some 10%nat
  /\ captureIntervalRef (refs liveSession) = Some 1%positive.
Proof. simpl. repeat split; set_solver. Qed.

(** ** MessageLog *)

Lemma slice_last_length {A} (n : nat) (l : list A) :
  length (slice_last n l) = Nat.min n (length l).
Proof. unfold slice_last. rewrite length_drop. lia. Qed.

Lemma slice_last_short {A} (n : nat) (l : list A) :
  (length l <= n)%nat -> slice_last n l = l.
Proof.
  intros Hle. unfold slice_last.
  replace (length l - n)%nat with 0%nat by lia. reflexivity.
Qed.

Lemma slice_last_snoc {A} (n : nat) (l : list A) (a : A) :
  slice_last (S n) (l ++ [a]) = slice_last n l ++ [a].
Proof.
  unfold slice_last. rewrite length_app. simpl.
  replace (length l + 1 - S n)%nat with (length l - n)%nat by lia.
  rewrite drop_app_le by lia. reflexivity.
Qed.

Lemma slice_last_slice_last {A} (n m : nat) (l : list A) :
  (n <= m)%nat -> slice_last n (slice_last m l) = slice_last n l.
Proof.
  intros Hle. unfold slice_last. rewrite length_drop, drop_drop.
  f_equal. lia.
Qed.

(** A list is empty or ends in some element. *)
Lemma list_snoc_case {A} (l : list A) :
  l = [] \/ exists l' x, l = l' ++ [x].
Proof.
  induction l as [|x l' _] using rev_ind; [left; reflexivity|].
  right. exists l', x. reflexivity.
Qed.

Lemma slice_last_last {A} (n : nat) (l : list A) :
  last (slice_last (S n) l) = last l.
Proof.
  destruct (list_snoc_case l) as [->|(l' & x & ->)]; [reflexivity|].
  rewrite slice_last_snoc, !last_snoc. reflexivity.
Qed.

Lemma insert_last_snoc {A} (l : list A) (a b : A) :
  <[ (length (l ++ [a]) - 1)%nat := b ]> (l ++ [a]) = l ++ [b].
Proof.
  rewrite length_app. simpl.
  replace (length l + 1 - 1)%nat with (length l + 0)%nat by lia.
  rewrite insert_app_r. reflexivity.
Qed.

Lemma addMessage_coalesce now r t prev :
  t <> "" -> addMessage now r t prev = slice_last 5 (coalesce now r t prev).
Proof.
  intros Ht. unfold addMessage, coalesce.
  destruct (decide (t = "")) as [|_]; [contradiction|].
  destruct (last prev) as [l|]; [|reflexivity].
  destruct (bool_decide (role l = r) && bool_decide (r = assistant));
    reflexivity.
Qed.

Lemma addMessage_empty now r prev : addMessage now r "" prev = prev.
Proof. reflexivity. Qed.

Lemma addMessage_length now r t prev :
  (length prev <= 5)%nat -> (length (addMessage now r t prev) <= 5)%nat.
Proof.
  intros Hprev. destruct (decide (t = "")) as [->|Ht].
  - rewrite addMessage_empty. exact Hprev.
  - rewrite addMessage_coalesce by exact Ht. rewrite slice_last_length. lia.
Qed.

Lemma addMessages_length ops : forall log,
  (length log <= 5)%nat -> (length (addMessages ops log) <= 5)%nat.
Proof.
  induction ops as [|op ops IH]; intros log Hlog; simpl; [exact Hlog|].
  apply IH, addMessage_length, Hlog.
Qed.

(** Cutting to five before or after an append gives the same five. *)
Lemma coalesce_slice now r t L :
  t <> "" ->
  slice_last 5 (coalesce now r t (slice_last 5 L))
  = slice_last 5 (coalesce now r t L).
Proof.
  intros Ht. unfold coalesce.
  destruct (decide (t = "")) as [|_]; [contradiction|].
  destruct (list_snoc_case L) as [->|(L' & x & ->)]; [reflexivity|].
  rewrite (slice_last_snoc 4 L' x), !last_snoc.
  destruct (bool_decide (role x = r) && bool_decide (r = assistant)).
  - rewrite !insert_last_snoc, !slice_last_snoc.
    rewrite slice_last_slice_last by lia. reflexivity.
  - rewrite !slice_last_snoc.
    rewrite slice_last_slice_last by lia. reflexivity.
Qed.

Lemma addMessages_unbounded ops : forall L,
  addMessages ops (slice_last 5 L) = slice_last 5 (unbounded_log ops L).
Proof.
  induction ops as [|[[now r] t] ops IH]; intros L; simpl; [reflexivity|].
  destruct (decide (t = "")) as [->|Ht].
  - rewrite addMessage_empty. unfold coalesce at 1. simpl. apply IH.
  - rewrite addMessage_coalesce by exact Ht.
    rewrite coalesce_slice by exact Ht. apply IH.
Qed.

Lemma addMessage_merge now t prev l :
  t <> "" -> last prev = Some l -> role l = assistant ->
  addMessage now assistant t prev
    = slice_last 5 (<[ (length prev - 1)%nat := extend l t ]> prev)
  /\ last (addMessage now assistant t prev) = Some (extend l t)
  /\ length (addMessage now assistant t prev) = Nat.min 5 (length prev).
Proof.
  intros Ht Hlast Hrole.
  assert (Heq : addMessage now assistant t prev
                = slice_last 5 (<[ (length prev - 1)%nat := extend l t ]> prev)).
  { unfold addMessage. destruct (decide (t = "")) as [|_]; [contradiction|].
    rewrite Hlast, Hrole. reflexivity. }
  split; [exact Heq|]. rewrite Heq. split.
  - apply last_Some in Hlast as [l' ->].
    rewrite insert_last_snoc, slice_last_last, last_snoc. reflexivity.
  - rewrite slice_last_length, length_insert. reflexivity.
Qed.

Lemma addMessage_append now r t prev :
  t <> "" ->
  (r = user \/ forall l, last prev = Some l -> role l = user) ->
  addMessage now r t prev = slice_last 5 (prev ++ [mkMessage r t now])
  /\ last (addMessage now r t prev) = Some (mkMessage r t now).
Proof.
  intros Ht Hcase.
  assert (Heq : addMessage now r t prev
                = slice_last 5 (prev ++ [mkMessage r t now])).
  { unfold addMessage. destruct (decide (t = "")) as [|_]; [contradiction|].
    destruct (last prev) as [l|] eqn:Hlast; [|reflexivity].
    destruct Hcase as [->|Hall].
    - rewrite andb_false_r. reflexivity.
    - rewrite (Hall l eq_refl).
      destruct r; reflexivity. }
  split; [exact Heq|].
  rewrite Heq, slice_last_last, last_snoc. reflexivity.
Qed.

(** After a non-empty append the log ends in an entry of the appended
    role. *)
Lemma addMessage_last_role now r t prev :
  t <> "" ->
  exists m, last (addMessage now r t prev) = Some m /\ role m = r.
Proof.
  intros Ht. destruct r.
  - exists (mkMessage user t now). split; [|reflexivity].
    apply addMessage_append; [exact Ht|left; reflexivity].
  - destruct (last prev) as [l|] eqn:Hlast.
    + destruct (role l) eqn:Hrole.
      * exists (mkMessage assistant t now). split; [|reflexivity].
        apply addMessage_append; [exact Ht|].
        right. intros l' Hl'. congruence.
      * exists (extend l t). split; [|exact Hrole].
        apply (addMessage_merge now t prev l Ht Hlast Hrole).
    + exists (mkMessage assistant t now). split; [|reflexivity].
      apply addMessage_append; [exact Ht|].
      right. intros l' Hl'. congruence.
Qed.

(** C4 (as amended). An append with non-empty text merges into the last
    entry, in place, exactly when the appended role and the last stored
    role are both assistant, and otherwise adds a new last entry; so two
    assistant appends in a row leave one entry, and a user append between
    them starts a new one. An append with empty text leaves the log as it
    is. *)
Theorem addMessage_merges_or_appends now r t prev :
  t <> "" ->
  (forall l, r = assistant -> last prev = Some l -> role l = assistant ->
     addMessage now r t prev
       = slice_last 5 (<[ (length prev - 1)%nat := extend l t ]> prev)
     /\ last (addMessage now r t prev)
        = Some (mkMessage assistant (text l +:+ t) (timestamp l))
     /\ length (addMessage now r t prev) = Nat.min 5 (length prev))
  /\ ((r = user \/ forall l, last prev = Some l -> role l = user) ->
      addMessage now r t prev = slice_last 5 (prev ++ [mkMessage r t now])
      /\ last (addMessage now r t prev) = Some (mkMessage r t now))
  /\ (forall now' t', r = assistant -> t' <> "" ->
      length (addMessage now' assistant t' (addMessage now r t prev))
      = length (addMessage now r t prev))
  /\ (forall n1 t1 n2 t2, t1 <> "" -> t2 <> "" ->
      last (addMessage n2 assistant t2
              (addMessage n1 user t1 (addMessage now r t prev)))
      = Some (mkMessage assistant t2 n2))
  /\ addMessage now r "" prev = prev.
Proof.
  intros Ht. split; [|split; [|split; [|split]]].
  - intros l -> Hlast Hrole.
    destruct (addMessage_merge now t prev l Ht Hlast Hrole) as (He & Hl & Hn).
    split; [exact He|]. split; [|exact Hn].
    rewrite Hl. destruct l as [rl tl ts]. simpl in Hrole. subst rl.
    reflexivity.
  - intros Hcase. apply addMessage_append; assumption.
  - intros now' t' -> Ht'.
    destruct (addMessage_last_role now assistant t prev Ht) as (m & Hm & Hr).
    destruct (addMessage_merge now' t' _ m Ht' Hm Hr) as (_ & _ & Hlen).
    rewrite Hlen. apply Nat.min_r.
    rewrite addMessage_coalesce by exact Ht. rewrite slice_last_length. lia.
  - intros n1 t1 n2 t2 Ht1 Ht2.
    apply addMessage_append; [exact Ht2|]. right. intros l Hl.
    destruct (addMessage_append n1 user t1 (addMessage now r t prev) Ht1)
      as [_ Hu]; [left; reflexivity|].
    rewrite Hu in Hl. injection Hl as <-. reflexivity.
  - reflexivity.
Qed.

(** The two appends of spec section 8: the second assistant fragment is
    concatenated into the entry of the first. *)
Lemma addMessage_merges_or_appends_witness :
  addMessage 2 assistant "DETECTADA" [mkMessage assistant "OPORTUNIDADE " 1]
  = [mkMessage assistant "OPORTUNIDADE DETECTADA" 1].
Proof.
  destruct (addMessage_merges_or_appends 2 assistant "DETECTADA"
              [mkMessage assistant "OPORTUNIDADE " 1]) as [Hmerge _].
  - discriminate.
  - exact (proj1 (Hmerge _ eq_refl eq_refl eq_refl)).
Defined.

(** C4 (as stated) fails on an empty text: with a user entry last, the
    claim has an assistant append add a new entry, but [addMessage]
    returns at its guard and the log keeps its single entry. *)
Lemma addMessage_empty_text_counterexample :
  let prev := [mkMessage user "oi" 1] in
  addMessage 2 assistant "" prev = prev
  /\ addMessage 2 assistant "" prev <> prev ++ [mkMessage assistant "" 2]
  /\ length (addMessage 2 assistant "" prev) = 1%nat.
Proof. repeat split. discriminate. Qed.

(** C5. Whatever is appended, in whatever number and with whatever roles,
    the log started empty holds at most five entries after every append,
    and they are the five most recent entries of the untruncated log; one
    append to any log either changes nothing or leaves at most five. *)
Theorem messages_at_most_five (ops : list (Z * Role * string)) :
  (forall k, (length (addMessages (take k ops) []) <= 5)%nat)
  /\ addMessages ops [] = slice_last 5 (unbounded_log ops [])
  /\ (forall now r t prev,
        addMessage now r t prev = prev
        \/ (length (addMessage now r t prev) <= 5)%nat).
Proof.
  split; [|split].
  - intros k. apply addMessages_length. simpl. lia.
  - apply (addMessages_unbounded ops []).
  - intros now r t prev. destruct (decide (t = "")) as [->|Ht].
    + left. reflexivity.
    + right. rewrite addMessage_coalesce by exact Ht.
      rewrite slice_last_length. lia.
Qed.

(** ** TranscriptionSessionController *)

(** C3. A transcript event with empty text changes nothing. With non-empty
    text the interim buffer takes the text; when [is_final] and
    [speech_final] both hold, the text is committed as a new last user
    entry of the log and the buffer is cleared; in every other case
    (among them final without speech-final) the log stays as it was. Nothing
    but the log and the buffer is touched. *)
Theorem transcript_commits_on_double_final now (data : TranscriptEvent)
    (s : State) :
  let s' := deepgram_on_transcript now data s in
  if decide (transcript data = "") then s' = s
  else
    refs s' = refs s /\ world s' = world s
    /\ status (view s') = status (view s)
    /\ errorMsg (view s') = errorMsg (view s)
    /\ isCapturing (view s') = isCapturing (view s)
    /\ isSpeaking (view s') = isSpeaking (view s)
    /\ if is_final data && speech_final data then
         messages (view s')
           = slice_last 5
               (messages (view s) ++ [mkMessage user (transcript data) now])
         /\ last (messages (view s'))
            = Some (mkMessage user (transcript data) now)
         /\ userTranscript (view s') = ""
       else
         messages (view s') = messages (view s)
         /\ userTranscript (view s') = transcript data.
Proof.
  unfold deepgram_on_transcript.
  destruct (decide (transcript data = "")) as [He|Hne]; simpl; [reflexivity|].
  destruct (is_final data && speech_final data); simpl.
  - repeat split;
      apply (addMessage_append now user (transcript data) _ Hne);
      left; reflexivity.
  - repeat split.
Qed.

(** The three events of spec section 8 commit one entry. *)
Example transcript_example :
  let run s :=
    deepgram_on_transcript 3 (mkTranscriptEvent "oportunidade de compra" true true)
      (deepgram_on_transcript 2 (mkTranscriptEvent "oportunidade de compra" true false)
         (deepgram_on_transcript 1 (mkTranscriptEvent "oportun" false false) s)) in
  messages (view (run (initialState quietWorld)))
  = [mkMessage user "oportunidade de compra" 3]
  /\ userTranscript (view (run (initialState quietWorld))) = "".
Proof. split; reflexivity. Qed.

(** ** PlaybackScheduler *)

Lemma enqueue_scheduled now d s :
  scheduled (world (enqueue now d s))
  = scheduled (world s)
      ++ [mkSegment (nextSource (world s))
                    (Z.max (nextStartTimeRef (refs s)) now) d].
Proof. reflexivity. Qed.

Lemma enqueue_clock now d s :
  nextStartTimeRef (refs (enqueue now d s))
  = Z.max (nextStartTimeRef (refs s)) now + d.
Proof. reflexivity. Qed.

Lemma enqueue_nextSource now d s :
  nextSource (world (enqueue now d s)) = S (nextSource (world s)).
Proof. reflexivity. Qed.

Lemma enqueues_scheduled l : forall s,
  scheduled (world (enqueues l s))
  = scheduled (world s)
      ++ plan l (nextStartTimeRef (refs s)) (nextSource (world s)).
Proof.
  induction l as [|p l IH]; intros s.
  - simpl. rewrite app_nil_r. reflexivity.
  - change (enqueues (p :: l) s) with (enqueues l (enqueue p.1 p.2 s)).
    rewrite IH, enqueue_scheduled, enqueue_clock, enqueue_nextSource.
    rewrite <- app_assoc. reflexivity.
Qed.

Lemma new_segments_plan l s :
  new_segments l s = plan l (nextStartTimeRef (refs s)) (nextSource (world s)).
Proof.
  unfold new_segments. rewrite enqueues_scheduled.
  apply drop_app_length.
Qed.

Lemma plan_length l : forall clock source,
  length (plan l clock source) = length l.
Proof.
  induction l as [|p l IH]; intros clock source; simpl; [reflexivity|].
  rewrite IH. reflexivity.
Qed.

Lemma plan_duration l : forall clock source i g,
  plan l clock source !! i = Some g ->
  exists p, l !! i = Some p /\ seg_duration g = p.2.
Proof.
  induction l as [|p l IH]; intros clock source i g Hg; [discriminate|].
  destruct i as [|i]; simpl in Hg.
  - injection Hg as <-. exists p. split; reflexivity.
  - apply (IH _ _ _ _ Hg).
Qed.

Lemma plan_consecutive l : forall clock source i g g' p,
  plan l clock source !! i = Some g ->
  plan l clock source !! S i = Some g' ->
  l !! S i = Some p ->
  seg_start g' = Z.max (seg_end g) p.1.
Proof.
  induction l as [|p0 l IH]; intros clock source i g g' p Hg Hg' Hp;
    [discriminate|].
  destruct i as [|i]; simpl in Hg, Hg', Hp.
  - injection Hg as <-. destruct l as [|p1 l]; [discriminate|].
    simpl in Hg', Hp. injection Hp as ->. injection Hg' as <-. reflexivity.
  - apply (IH _ _ _ _ _ _ Hg Hg' Hp).
Qed.

(** C1 (as amended). In a run of enqueues with no purge in between, each
    enqueue schedules one segment; segment i+1 starts at the later of the
    end of segment i and the transport clock read by enqueue i+1. So starts
    never decrease and segments never overlap, and segment i+1 starts
    exactly at the end of segment i whenever the clock has not passed
    that end. *)
Theorem enqueues_contiguous (s : State) (l : list (Z * Z)) :
  Forall (fun p => 0 <= p.2) l ->
  length (new_segments l s) = length l
  /\ forall i g g' p,
       new_segments l s !! i = Some g ->
       new_segments l s !! S i = Some g' ->
       l !! S i = Some p ->
       seg_start g' = Z.max (seg_end g) p.1
       /\ seg_end g <= seg_start g'
       /\ seg_start g <= seg_start g'
       /\ (p.1 <= seg_end g -> seg_start g' = seg_end g).
Proof.
  intros Hdur. rewrite new_segments_plan. split; [apply plan_length|].
  intros i g g' p Hg Hg' Hp.
  pose proof (plan_consecutive _ _ _ _ _ _ _ Hg Hg' Hp) as Hstart.
  destruct (plan_duration _ _ _ _ _ Hg) as (q & Hq & Hd).
  assert (0 <= seg_duration g) as Hnonneg.
  { rewrite Hd. rewrite Forall_lookup in Hdur. apply (Hdur i q Hq). }
  unfold seg_end in *. repeat split; lia.
Qed.

(** The example of spec section 8: 2.0 s then 1.5 s, both arriving at
    clock 0; the second starts where the first ends. *)
Lemma enqueues_contiguous_witness :
  exists g g',
    new_segments [(0, 48000); (0, 36000)] liveSession = [g; g']
    /\ seg_start g' = seg_end g.
Proof.
  exists (mkSegment 0 0 48000), (mkSegment 1 48000 36000).
  split; [reflexivity|].
  assert (Hdur : Forall (fun p : Z * Z => 0 <= p.2) [(0, 48000); (0, 36000)]).
  { repeat constructor; simpl; lia. }
  destruct (enqueues_contiguous liveSession _ Hdur) as [_ Hseg].
  destruct (Hseg 0%nat (mkSegment 0 0 48000) (mkSegment 1 48000 36000)
              (0, 36000) eq_refl eq_refl eq_refl) as (_ & _ & _ & Hfit).
  apply Hfit. simpl. unfold seg_end. simpl. lia.
Defined.

(** C1 (as stated) fails when the clock has passed the end of the last
    segment: 2.0 s enqueued at clock 0 ends at frame 48000, and a chunk
    arriving at frame 96000 starts there, 48000 frames after that end. *)
Lemma enqueues_gap_counterexample :
  new_segments [(0, 48000); (96000, 36000)] liveSession
  = [mkSegment 0 0 48000; mkSegment 1 96000 36000]
  /\ seg_start (mkSegment 1 96000 36000) <> seg_end (mkSegment 0 0 48000).
Proof. split; [vm_compute; reflexivity|discriminate]. Qed.

Lemma try_source_stop_elem p a h :
  h ∈ try_source_stop p a <-> h ∈ p /\ h <> a.
Proof.
  unfold try_source_stop, source_stop.
  destruct (decide (a ∈ p)) as [Hin|Hout]; simpl.
  - rewrite elem_of_difference, elem_of_singleton. reflexivity.
  - split; [|tauto]. intros Hh. split; [exact Hh|]. congruence.
Qed.

Lemma stop_all_elem l : forall p h,
  h ∈ foldl try_source_stop p l <-> h ∈ p /\ h ∉ l.
Proof.
  induction l as [|a l IH]; intros p h; simpl.
  - rewrite elem_of_nil. tauto.
  - rewrite IH, try_source_stop_elem, not_elem_of_cons. tauto.
Qed.

(** C2. The interrupted branch never raises (it is a total function of the
    state); afterwards no source of the active set is playing while every
    other source is as before, the active set is empty, the scheduling
    clock is 0 and the speaking flag is off. An enqueue that follows
    schedules its segment at the later of 0 and the transport clock it
    reads, which is at or after that clock and, the clock being
    non-negative, is that clock. *)
Theorem purge_resets_and_reschedules (s : State) :
  let s' := purge s in
  sourcesRef (refs s') = ∅
  /\ nextStartTimeRef (refs s') = 0
  /\ isSpeaking (view s') = false
  /\ (forall h, h ∈ playing (world s')
                <-> h ∈ playing (world s) /\ h ∉ sourcesRef (refs s))
  /\ forall now d,
       scheduled (world (enqueue now d s'))
       = scheduled (world s)
           ++ [mkSegment (nextSource (world s)) (Z.max 0 now) d]
       /\ now <= Z.max 0 now
       /\ (0 <= now -> Z.max 0 now = now).
Proof.
  simpl. split; [reflexivity|]. split; [reflexivity|].
  split; [reflexivity|]. split.
  - intros h. rewrite stop_all_elem, elem_of_elements. reflexivity.
  - intros now d. split; [reflexivity|]. lia.
Qed.

(** The second example of spec section 8: two segments enqueued at clock
    0, a purge at frame 24000 (1.0 s), then a chunk arriving at frame
    30000: both sources are stopped and the chunk starts at 30000. *)
Example purge_example :
  let s := purge (enqueues [(0, 48000); (0, 36000)] liveSession) in
  playing (world s) = ∅
  /\ nextStartTimeRef (refs s) = 0
  /\ scheduled (world (enqueue 30000 12000 s))
     = [mkSegment 0 0 48000; mkSegment 1 48000 36000;
        mkSegment 2 30000 12000].
Proof. repeat split; vm_compute; reflexivity. Qed.

(** A source that already finished is still in the active set (its
    ['ended'] listener has not run yet): its [stop()] raises, the purge
    goes on and ends as always. *)
Example purge_swallows_finished_source :
  let s := set_playing ∅ speakingSession in
  source_stop 0 (playing (world s)) = None
  /\ sourcesRef (refs s) = {[0%nat]}
  /\ sourcesRef (refs (purge s)) = ∅
  /\ playing (world (purge s)) = ∅
  /\ nextStartTimeRef (refs (purge s)) = 0.
Proof. simpl. repeat split; set_solver. Qed.

(** How [onmessage] reaches the scheduler: a message with audio, on a
    session whose output context exists, enqueues before anything else; a
    message that only carries [interrupted] is a purge. *)
Lemma onmessage_enqueues currentTime d now m s :
  audio_guard m s = true ->
  onmessage currentTime (Some d) now m s
  = Returned (onmessage_tail now m (enqueue currentTime d s)).
Proof. intros Hg. unfold onmessage. rewrite Hg. reflexivity. Qed.

Lemma onmessage_interrupted currentTime decoded now s :
  onmessage currentTime decoded now (mkLiveServerMessage None None true) s
  = Returned (purge s).
Proof. reflexivity. Qed.

(** ** SessionLifecycle *)

Lemma stop_tracks_fold ms : forall live : gset nat,
  foldl (fun live t => live ∖ {[t]}) live ms = live ∖ list_to_set ms.
Proof.
  induction ms as [|t ms IH]; intros live; simpl.
  - set_solver.
  - rewrite IH. set_solver.
Qed.

Lemma stopCapture_stopped (s : State) :
  finish_safe s -> stopCapture s = Returned (stopped s).
Proof.
  destruct s as [v [vs sr sp dg ia oa on ns srcs mic tm]
                   [live tms conns faulty pl sch nx]].
  unfold finish_safe, stopCapture, stopped. simpl. intros Hsafe.
  destruct tm as [id|], mic as [ms|], vs as [vms|], sr as [c|];
    simpl; unfold conn_close; simpl;
    try (destruct (decide (c ∈ faulty)) as [Hc|Hc]; simpl);
    (destruct dg as [c'|]; simpl;
     [destruct (decide (c' ∈ faulty)) as [Hc'|Hc'];
      [exfalso; exact (Hsafe c' eq_refl Hc')|] |]);
    run_setters; simpl; do 2 f_equal;
    rewrite ?stop_tracks_fold; f_equal; set_solver.
Qed.

Lemma stopped_finish_safe (s : State) : finish_safe (stopped s).
Proof. intros c Hc. discriminate. Qed.

Lemma stopped_idempotent (s : State) : stopped (stopped s) = stopped s.
Proof.
  destruct s as [v [vs sr sp dg ia oa on ns srcs mic tm]
                   [live tms conns faulty pl sch nx]].
  unfold stopped. simpl. destruct sr; simpl; do 2 f_equal; set_solver.
Qed.

(** When [finish()] raises, [stopCapture] raises with it and the flags
    keep their values. *)
Lemma stopCapture_finish_raises (s : State) (c : nat) :
  deepgramConnectionRef (refs s) = Some c -> c ∈ faultyClose (world s) ->
  returned (stopCapture s) = false
  /\ view (outcome_state (stopCapture s)) = view s.
Proof.
  destruct s as [v [vs sr sp dg ia oa on ns srcs mic tm]
                   [live tms conns faulty pl sch nx]].
  simpl. intros -> Hc. unfold stopCapture. simpl.
  destruct tm as [id|], mic as [ms|], vs as [vms|], sr as [c0|];
    simpl; unfold conn_close; simpl;
    try (destruct (decide (c0 ∈ faulty)) as [Hc0|Hc0]; simpl);
    (destruct (decide (c ∈ faulty)) as [_|Hn]; [|contradiction]);
    split; reflexivity.
Qed.

(** C6 (as amended). Provided [finish()] of the transcription connection
    does not raise, [stopCapture] returns from any state, and a second
    call from the state it leaves returns that same state. It stops every
    track of the microphone stream and of the stream attached to the video
    element, detaches that stream, closes and forgets both connections (an
    error raised by the agent session's [close()] is swallowed), cancels
    the frame timer, and resets the transcript buffer and the flags. The
    scheduling clock, the set of active sources and the playing sources are
    left as they were. *)
Theorem stopCapture_tears_down (s : State) :
  finish_safe s ->
  exists s1,
    stopCapture s = Returned s1
    /\ stopCapture s1 = Returned s1
    /\ (forall ms t, micStreamRef (refs s) = Some ms -> t ∈ ms ->
                     t ∉ liveTracks (world s1))
    /\ (forall vs t, videoSrcObject (refs s) = Some vs -> t ∈ vs ->
                     t ∉ liveTracks (world s1))
    /\ videoSrcObject (refs s1) = None
    /\ sessionRef (refs s1) = None
    /\ deepgramConnectionRef (refs s1) = None
    /\ (forall c, sessionRef (refs s) = Some c -> c ∉ faultyClose (world s) ->
                  c ∉ openConns (world s1))
    /\ (forall c, deepgramConnectionRef (refs s) = Some c ->
                  c ∉ openConns (world s1))
    /\ (forall id, captureIntervalRef (refs s) = Some id ->
                   id ∉ timers (world s1))
    /\ userTranscript (view s1) = ""
    /\ isCapturing (view s1) = false
    /\ isSpeaking (view s1) = false
    /\ status (view s1) = DISCONNECTED
    /\ nextStartTimeRef (refs s1) = nextStartTimeRef (refs s)
    /\ sourcesRef (refs s1) = sourcesRef (refs s)
    /\ playing (world s1) = playing (world s).
Proof.
  intros Hsafe. exists (stopped s).
  split; [apply stopCapture_stopped, Hsafe|].
  split.
  { rewrite (stopCapture_stopped _ (stopped_finish_safe s)).
    rewrite stopped_idempotent. reflexivity. }
  destruct s as [v [vs sr sp dg ia oa on ns srcs mic tm]
                   [live tms conns faulty pl sch nx]].
  simpl. repeat split.
  - intros ms t -> Ht. set_solver.
  - intros vs' t -> Ht. set_solver.
  - intros c -> Hc. unfold closed_session. simpl.
    destruct (decide (c ∈ faulty)) as [Hin|_]; [contradiction|set_solver].
  - intros c ->. set_solver.
  - intros id ->. set_solver.
Qed.

(** The agent socket raises on [close()], the transcription socket does
    not: teardown still completes. *)
Lemma stopCapture_tears_down_witness :
  exists s1,
    stopCapture brittleAgentSession = Returned s1
    /\ stopCapture s1 = Returned s1
    /\ sessionRef (refs s1) = None
    /\ status (view s1) = DISCONNECTED.
Proof.
  assert (Hsafe : finish_safe brittleAgentSession).
  { intros c Hc. injection Hc as <-. simpl.
    rewrite elem_of_singleton. discriminate. }
  destruct (stopCapture_tears_down brittleAgentSession Hsafe)
    as (s1 & H1 & H2 & _ & _ & _ & H3 & _ & _ & _ & _ & _ & _ & _ & H4 & _).
  exists s1. repeat split; assumption.
Defined.

(** C6 (as stated) fails on the playback scheduler: stopping a session in
    the middle of an utterance leaves the scheduling clock at frame 48000
    and the source in the active set, still playing. *)
Lemma stopCapture_keeps_scheduler_counterexample :
  exists s1,
    stopCapture speakingSession = Returned s1
    /\ nextStartTimeRef (refs s1) = 48000
    /\ nextStartTimeRef (refs s1) <> 0
    /\ sourcesRef (refs s1) = {[0%nat]}
    /\ sourcesRef (refs s1) <> ∅
    /\ 0%nat ∈ playing (world s1).
Proof.
  exists (stopped speakingSession). split.
  - apply stopCapture_stopped. intros c Hc. injection Hc as <-. simpl.
    apply not_elem_of_empty.
  - simpl. repeat split; try discriminate; set_solver.
Qed.

(** C7. Evaluation of [startAnalysis] where the claim breaks: the screen
    is granted (track 0) and the microphone prompt is then refused. The
    catch reports the one message and calls [stopCapture], and the call
    returns; but the screen stream was never attached to the video
    element, so its track is still live afterwards, and the status that
    the catch set to [ERROR] has been overwritten by [stopCapture]. *)
Theorem startAnalysis_mic_refused_leaks_screen_track :
  let o := startAnalysis micRefusedEnv (initialState quietWorld) in
  returned o = true
  /\ errorMsg (view (outcome_state o)) = Some "Permission denied"
  /\ status (view (outcome_state o)) = DISCONNECTED
  /\ status (view (outcome_state o)) <> ERROR
  /\ 0%nat ∈ liveTracks (world (outcome_state o))
  /\ videoSrcObject (refs (outcome_state o)) = None
  /\ micStreamRef (refs (outcome_state o)) = None.
Proof.
  simpl. repeat split; discriminate.
Qed.

(** The same failure from any idle state in screen mode: every granted
    screen track that no stream reference of the state holds stays live. *)
Lemma startAnalysis_mic_refused_general (s : State) (env : StartEnv)
    (ms : MediaStream) (e : string) :
  mode (view s) = screen -> env_deepgramKey env = true ->
  env_displayMedia env = inr ms -> env_micMedia env = inl e ->
  finish_safe s ->
  exists s1,
    startAnalysis env s = Returned s1
    /\ status (view s1) = DISCONNECTED
    /\ errorMsg (view s1) = Some e
    /\ forall t, t ∈ ms ->
         t ∉ tracks_of (micStreamRef (refs s)) ->
         t ∉ tracks_of (videoSrcObject (refs s)) ->
         t ∈ liveTracks (world s1).
Proof.
  intros Hmode Hkey Hdisp Hmic Hsafe.
  destruct s as [v [vs sr sp dg ia oa on ns srcs mic tm]
                   [live tms conns faulty pl sch nx]].
  destruct v as [st msgs cap spk err md ut]. cbn in Hmode. subst md.
  unfold startAnalysis, startAnalysis_try. rewrite Hkey.
  destruct oa, ia;
    cbn [negb setErrorMsg setStatus upd_view upd_refs view refs world mode
         outputAudioContextRef inputAudioContextRef set_outputAudio
         set_inputAudioContextRef];
    rewrite Hdisp, Hmic;
    (eexists; split; [apply stopCapture_stopped; exact Hsafe|]);
    unfold stopped;
    cbn [setErrorMsg setStatus upd_view upd_refs upd_world view refs world
         grant set_liveTracks status errorMsg liveTracks micStreamRef
         videoSrcObject];
    (split; [reflexivity|split; [reflexivity|]]);
    intros t Ht Hm Hv;
    rewrite !elem_of_difference, elem_of_union, elem_of_list_to_set;
    tauto.
Qed.

(** ** TranscriptionConnectionError *)

(** C8 (as amended). An error of the transcription connection surfaces
    the transcription message, which differs from the agent's and from the
    missing-key message, and does nothing else: no reference, no browser
    resource and no other flag changes, so no teardown takes place. *)
Theorem deepgram_error_only_reports (s : State) :
  let s' := deepgram_on_error s in
  errorMsg (view s') = Some transcription_error_message
  /\ transcription_error_message <> agent_error_message
  /\ transcription_error_message <> missing_key_message
  /\ refs s' = refs s
  /\ world s' = world s
  /\ status (view s') = status (view s)
  /\ isCapturing (view s') = isCapturing (view s)
  /\ isSpeaking (view s') = isSpeaking (view s)
  /\ messages (view s') = messages (view s)
  /\ userTranscript (view s') = userTranscript (view s)
  /\ mode (view s') = mode (view s).
Proof. simpl. repeat split; discriminate. Qed.

(** C8 (as stated) fails: after a transcription error on a live session
    the status is still [CONNECTED], both tracks are live, both
    connections are open and referenced, and the frame timer runs. *)
Lemma deepgram_error_no_teardown_counterexample :
  let s' := deepgram_on_error liveSession in
  errorMsg (view s') = Some transcription_error_message
  /\ status (view s') = CONNECTED
  /\ isCapturing (view s') = true
  /\ 0%nat ∈ liveTracks (world s')
  /\ 1%nat ∈ liveTracks (world s')
  /\ 10%nat ∈ openConns (world s')
  /\ 20%nat ∈ openConns (world s')
  /\ 1%positive ∈ timers (world s')
  /\ sessionRef (refs s') = Some 20%nat
  /\ deepgramConnectionRef (refs s') = Some 10%nat
  /\ s' <> outcome_state (stopCapture s').
Proof.
  simpl. repeat split; set_solver.
Qed.

(** ** FrameSampler *)

(** C9. Evaluation of a tick where the claim breaks. A tick on a surface
    without decoded width hands nothing to the encoder, and a tick on a
    live session with a decoded surface does. When [stopCapture] runs
    before the encoder delivers, the delivery callback finds
    [sessionPromiseRef] empty and raises a TypeError: no check stands
    between the encoder and the send. On the session still live the same
    callback sends the frame. *)
Theorem tick_after_teardown_raises :
  (forall s has2d video,
     videoWidth video <= 0 -> tick_begin has2d video s = false)
  /\ tick_begin true (mkVideoSurface 1280 720) liveSession = true
  /\ tick_encoded (Some "/9j/4AAQ") (outcome_state (stopCapture liveSession))
     = Threw "TypeError" []
  /\ returned (stopCapture liveSession) = true
  /\ tick_encoded (Some "/9j/4AAQ") liveSession
     = Returned [mkFrameSend 20 "/9j/4AAQ"]
  /\ (forall s c b,
        sessionRef (refs s) = Some c -> finish_safe s ->
        tick_encoded (Some b) (outcome_state (stopCapture s))
        = Threw "TypeError" []).
Proof.
  split; [|repeat split].
  - intros s has2d video Hw. unfold tick_begin.
    destruct (sessionPromiseRef (refs s)); [|reflexivity].
    rewrite bool_decide_eq_false_2 by lia. apply andb_false_r.
  - intros s c b Hc Hsafe. rewrite (stopCapture_stopped s Hsafe).
    unfold tick_encoded, stopped. simpl. rewrite Hc. reflexivity.
Qed.

(** ** AudioIngestPipeline *)

(** C10. For every captured block the callback sends the converted block
    to the agent session, whatever the state; besides that it sends at
    most one more packet, and that packet is the raw block to the
    transcription connection, present exactly when the connection is
    referenced and reports ready state 1. *)
Theorem onaudioprocess_fans_out {Block Blob : Type}
    (createAudioBlob : Block -> Blob) (session : nat)
    (getReadyState : nat -> Z) (inputData : Block) (s : State) :
  exists rest,
    onaudioprocess createAudioBlob session getReadyState inputData s
    = ToAgent session (createAudioBlob inputData) :: rest
    /\ (length rest <= 1)%nat
    /\ (forall x, x ∈ rest <->
          exists c, x = ToDeepgram c inputData
                    /\ deepgramConnectionRef (refs s) = Some c
                    /\ getReadyState c = 1).
Proof.
  unfold onaudioprocess.
  destruct (deepgramConnectionRef (refs s)) as [c|].
  - destruct (bool_decide (getReadyState c = 1)) eqn:Hready.
    + apply bool_decide_eq_true_1 in Hready.
      eexists. split; [reflexivity|]. split; [simpl; lia|].
      intros x. rewrite list_elem_of_singleton. split.
      * intros ->. exists c. auto.
      * intros (c' & -> & Hc' & _). congruence.
    + apply bool_decide_eq_false_1 in Hready.
      exists []. split; [reflexivity|]. split; [simpl; lia|].
      intros x. rewrite elem_of_nil. split; [tauto|].
      intros (c' & _ & Hc' & Hr). congruence.
  - exists []. split; [reflexivity|]. split; [simpl; lia|].
    intros x. rewrite elem_of_nil. split; [tauto|].
    intros (c' & _ & Hc' & _). discriminate.
Qed.

(** * Further properties *)

(** ** MessageLog: what every log built by [addMessage] looks like *)

Lemma append_not_empty (a b : string) : b <> "" -> a +:+ b <> "".
Proof. intros Hb. destruct a; simpl; [exact Hb|discriminate]. Qed.

Lemma coalesce_no_blank now r t prev :
  Forall (fun m => text m <> "") prev ->
  Forall (fun m => text m <> "") (coalesce now r t prev).
Proof.
  intros Hprev. unfold coalesce.
  destruct (decide (t = "")) as [|Ht]; [exact Hprev|].
  assert (Hnew : Forall (fun m => text m <> "") (prev ++ [mkMessage r t now])).
  { apply Forall_app. split; [exact Hprev|]. repeat constructor. exact Ht. }
  destruct (last prev) as [l|]; [|exact Hnew].
  destruct (bool_decide (role l = r) && bool_decide (r = assistant));
    [|exact Hnew].
  apply Forall_insert; [exact Hprev|]. simpl. apply append_not_empty, Ht.
Qed.

Lemma addMessage_no_blank now r t prev :
  Forall (fun m => text m <> "") prev ->
  Forall (fun m => text m <> "") (addMessage now r t prev).
Proof.
  intros Hprev. destruct (decide (t = "")) as [->|Ht].
  - rewrite addMessage_empty. exact Hprev.
  - rewrite addMessage_coalesce by exact Ht.
    apply Forall_drop, coalesce_no_blank, Hprev.
Qed.

(** X1. No entry of the log has empty text, however the log was built. *)
Theorem messages_never_blank (ops : list (Z * Role * string)) :
  Forall (fun m => text m <> "") (addMessages ops []).
Proof.
  assert (Hgen : forall log, Forall (fun m => text m <> "") log ->
                 Forall (fun m => text m <> "") (addMessages ops log)).
  { induction ops as [|op ops IH]; intros log Hlog; simpl; [exact Hlog|].
    apply IH, addMessage_no_blank, Hlog. }
  apply Hgen. constructor.
Qed.

Lemma no_adjacent_drop n l :
  no_adjacent_assistants l -> no_adjacent_assistants (drop n l).
Proof.
  intros Hl i a b Ha Hb. rewrite lookup_drop in Ha, Hb.
  replace (n + S i)%nat with (S (n + i)) in Hb by lia.
  apply (Hl _ _ _ Ha Hb).
Qed.

Lemma no_adjacent_snoc l x :
  no_adjacent_assistants l ->
  (forall m, last l = Some m -> role m = assistant -> role x = user) ->
  no_adjacent_assistants (l ++ [x]).
Proof.
  intros Hl Hx i a b Ha Hb Hra.
  destruct (decide (S i < length l)%nat) as [Hlt|Hge].
  - rewrite lookup_app_l in Ha, Hb by lia. apply (Hl _ _ _ Ha Hb Hra).
  - assert (S i = length l) as Hi.
    { apply lookup_lt_Some in Hb. rewrite length_app in Hb. simpl in Hb. lia. }
    rewrite lookup_app_l in Ha by lia.
    rewrite lookup_app_r in Hb by lia.
    replace (S i - length l)%nat with 0%nat in Hb by lia.
    simpl in Hb. injection Hb as <-.
    apply (Hx a); [|exact Hra].
    rewrite last_lookup. rewrite <- Hi. simpl. exact Ha.
Qed.

Lemma coalesce_no_adjacent now r t prev :
  no_adjacent_assistants prev -> no_adjacent_assistants (coalesce now r t prev).
Proof.
  intros Hprev. unfold coalesce.
  destruct (decide (t = "")) as [|Ht]; [exact Hprev|].
  destruct (last prev) as [l|] eqn:Hlast.
  - destruct (bool_decide (role l = r) && bool_decide (r = assistant)) eqn:Hm.
    + apply andb_true_iff in Hm as [Hlr Hr].
      apply bool_decide_eq_true_1 in Hlr, Hr. subst r.
      apply last_Some in Hlast as [l' ->].
      rewrite insert_last_snoc.
      apply no_adjacent_snoc.
      * intros i a b Ha Hb. apply (Hprev i a b).
        -- rewrite lookup_app_l; [exact Ha|]. apply lookup_lt_Some in Hb. lia.
        -- rewrite lookup_app_l; [exact Hb|]. apply lookup_lt_Some in Hb. lia.
      * intros m Hm Hrm. exfalso.
        destruct (list_snoc_case l') as [->|(l'' & y & ->)]; [discriminate|].
        rewrite last_snoc in Hm. injection Hm as ->.
        assert (role l = user) as Hu.
        { apply (Hprev (length l'') m l); [| |exact Hrm].
          - rewrite <- app_assoc. rewrite lookup_app_r by lia.
            replace (length l'' - length l'')%nat with 0%nat by lia.
            reflexivity.
          - rewrite lookup_app_r by (rewrite length_app; simpl; lia).
            rewrite length_app. simpl.
            replace (S (length l'') - (length l'' + 1))%nat with 0%nat by lia.
            reflexivity. }
        congruence.
    + apply no_adjacent_snoc; [exact Hprev|].
      intros m Hm' Hrm. assert (m = l) as -> by congruence. simpl.
      destruct r; [reflexivity|].
      rewrite Hrm in Hm. rewrite !bool_decide_eq_true_2 in Hm by reflexivity.
      discriminate.
  - apply no_adjacent_snoc; [exact Hprev|]. intros m Hm. congruence.
Qed.

Lemma addMessage_no_adjacent now r t prev :
  no_adjacent_assistants prev ->
  no_adjacent_assistants (addMessage now r t prev).
Proof.
  intros Hprev. destruct (decide (t = "")) as [->|Ht].
  - rewrite addMessage_empty. exact Hprev.
  - rewrite addMessage_coalesce by exact Ht.
    apply no_adjacent_drop, coalesce_no_adjacent, Hprev.
Qed.

Lemma no_adjacent_check (l : list Message) :
  no_adjacent_assistants l -> adjacent_assistants l = false.
Proof.
  induction l as [|a tl IH]; intros Hl; [reflexivity|].
  cbn [adjacent_assistants]. rewrite IH.
  - rewrite orb_false_r. destruct tl as [|b tl']; [apply andb_false_r|].
    destruct (role a) eqn:Ha; [reflexivity|].
    rewrite (Hl 0%nat a b eq_refl eq_refl Ha). reflexivity.
  - intros i x y Hx Hy. apply (Hl (S i) x y Hx Hy).
Qed.

(** X2. A log built by [addMessage] never shows two assistant entries
    next to each other. *)
Theorem messages_never_adjacent_assistants (ops : list (Z * Role * string)) :
  adjacent_assistants (addMessages ops []) = false.
Proof.
  assert (Hgen : forall log, no_adjacent_assistants log ->
                 no_adjacent_assistants (addMessages ops log)).
  { induction ops as [|op ops IH]; intros log Hlog; simpl; [exact Hlog|].
    apply IH, addMessage_no_adjacent, Hlog. }
  apply no_adjacent_check, Hgen. intros i a b Ha. discriminate.
Qed.

Lemma addMessages_fragments frags : forall log m,
  Forall (fun f : Z * string => f.2 <> "") frags ->
  last log = Some m -> role m = assistant -> (length log <= 5)%nat ->
  last (addMessages (map (fun f => (f.1, assistant, f.2)) frags) log)
  = Some (mkMessage assistant (foldl String.append (text m) frags.*2)
                    (timestamp m))
  /\ length (addMessages (map (fun f => (f.1, assistant, f.2)) frags) log)
     = length log.
Proof.
  induction frags as [|[n t] frags IH]; intros log m Hne Hlast Hrole Hlen.
  - simpl. split; [|reflexivity].
    rewrite Hlast. destruct m as [rm tm nm]. simpl in Hrole. subst rm.
    reflexivity.
  - apply Forall_cons in Hne as [Ht Hne]. simpl in Ht.
    destruct (addMessage_merge n t log m Ht Hlast Hrole) as (_ & Hl & Hn).
    assert (Hn' : length (addMessage n assistant t log) = length log)
      by (rewrite Hn; lia).
    change (addMessages (map (fun f : Z * string => (f.1, assistant, f.2))
                             ((n, t) :: frags)) log)
      with (addMessages (map (fun f : Z * string => (f.1, assistant, f.2)) frags)
                        (addMessage n assistant t log)).
    destruct (IH (addMessage n assistant t log) (extend m t) Hne Hl Hrole)
      as [IHl IHn]; [lia|].
    rewrite IHl, IHn. split; [reflexivity|exact Hn'].
Qed.

(** X3. A run of assistant fragments with non-empty texts, arriving on a
    log that does not end in an assistant entry, leaves one entry for the
    whole run: its text is the fragments' texts appended in arrival order
    and its timestamp that of the first fragment. The log grows by that one
    entry, up to the bound of five. *)
Theorem assistant_run_is_one_entry (prev : list Message) (n0 : Z)
    (t0 : string) (frags : list (Z * string)) :
  t0 <> "" ->
  Forall (fun f => f.2 <> "") frags ->
  (forall l, last prev = Some l -> role l = user) ->
  let log := addMessages
               (map (fun f => (f.1, assistant, f.2)) ((n0, t0) :: frags)) prev in
  last log = Some (mkMessage assistant (foldl String.append t0 frags.*2) n0)
  /\ length log = Nat.min 5 (S (length prev)).
Proof.
  intros Ht0 Hne Hprev log.
  destruct (addMessage_append n0 assistant t0 prev Ht0) as [Heq Hl];
    [right; exact Hprev|].
  assert (Hlen : length (addMessage n0 assistant t0 prev)
                 = Nat.min 5 (S (length prev))).
  { rewrite Heq, slice_last_length, length_app. cbn [length]. lia. }
  destruct (addMessages_fragments frags (addMessage n0 assistant t0 prev)
              (mkMessage assistant t0 n0) Hne Hl eq_refl) as [Hlast Hn];
    [lia|].
  subst log. split; [exact Hlast|].
  change (addMessages (map (fun f : Z * string => (f.1, assistant, f.2))
                           ((n0, t0) :: frags)) prev)
    with (addMessages (map (fun f : Z * string => (f.1, assistant, f.2)) frags)
                      (addMessage n0 assistant t0 prev)).
  rewrite Hn. exact Hlen.
Qed.

(** Three fragments after a user entry. *)
Lemma assistant_run_is_one_entry_witness :
  last (addMessages [(2, assistant, "OPORTUNIDADE "); (3, assistant, "DETECTADA");
                     (4, assistant, ": compra")]
                    [mkMessage user "e agora?" 1])
  = Some (mkMessage assistant "OPORTUNIDADE DETECTADA: compra" 2).
Proof.
  refine (proj1 (assistant_run_is_one_entry [mkMessage user "e agora?" 1] 2
                   "OPORTUNIDADE " [(3, "DETECTADA"); (4, ": compra")] _ _ _)).
  - discriminate.
  - repeat constructor; discriminate.
  - intros l Hl. injection Hl as <-. reflexivity.
Defined.

(** ** TranscriptionSessionController: runs of transcript events *)

Lemma addMessages_app ops1 ops2 log :
  addMessages (ops1 ++ ops2) log = addMessages ops2 (addMessages ops1 log).
Proof. apply foldl_app. Qed.

(** X4. After any run of transcript events the log is the log of the
    appends of exactly those events that carry text and are both final and
    speech-final, in order; the interim buffer holds the text of the last
    event with text, or nothing when that event was committed; references
    and browser are untouched. *)
Theorem transcripts_commit_only_double_final
    (evs : list (Z * TranscriptEvent)) (s : State) :
  messages (view (transcripts evs s))
  = addMessages (commits evs) (messages (view s))
  /\ userTranscript (view (transcripts evs s))
     = interim (userTranscript (view s)) evs
  /\ refs (transcripts evs s) = refs s
  /\ world (transcripts evs s) = world s.
Proof.
  revert s. induction evs as [|[now data] evs IH]; intros s.
  - repeat split.
  - change (transcripts ((now, data) :: evs) s)
      with (transcripts evs (deepgram_on_transcript now data s)).
    destruct (IH (deepgram_on_transcript now data s)) as (Hm & Hu & Hr & Hw).
    rewrite Hm, Hu, Hr, Hw. clear Hm Hu Hr Hw IH.
    change (commits ((now, data) :: evs))
      with ((if bool_decide (transcript data <> "") && is_final data
                && speech_final data
             then [(now, user, transcript data)] else []) ++ commits evs).
    rewrite addMessages_app.
    change (interim (userTranscript (view s)) ((now, data) :: evs))
      with (interim (if bool_decide (transcript data = "")
                     then userTranscript (view s)
                     else if is_final data && speech_final data then ""
                          else transcript data) evs).
    unfold deepgram_on_transcript.
    destruct (decide (transcript data = "")) as [He|Hne].
    + rewrite (bool_decide_eq_false_2 (transcript data <> "")) by tauto.
      rewrite (bool_decide_eq_true_2 _ He). repeat split.
    + rewrite (bool_decide_eq_true_2 (transcript data <> "") Hne).
      rewrite (bool_decide_eq_false_2 _ Hne).
      destruct (is_final data && speech_final data) eqn:Hf; simpl;
        rewrite ?Hf; repeat split.
Qed.

(** ** PlaybackScheduler: the speaking flag and the clock *)

Lemma source_ended_sources h s :
  sourcesRef (refs (source_ended h s)) = sourcesRef (refs s) ∖ {[h]}.
Proof.
  unfold source_ended. simpl.
  destruct (decide (size (sourcesRef (refs s) ∖ {[h]}) = 0%nat)); reflexivity.
Qed.

Lemma source_ended_speaking h s :
  isSpeaking (view (source_ended h s))
  = if decide (sourcesRef (refs s) ∖ {[h]} = ∅) then false
    else isSpeaking (view s).
Proof.
  unfold source_ended. simpl.
  destruct (decide (size (sourcesRef (refs s) ∖ {[h]}) = 0%nat)) as [Hz|Hnz];
    destruct (decide (sourcesRef (refs s) ∖ {[h]} = ∅)) as [He|Hne];
    try reflexivity.
  - exfalso. apply Hne. apply size_empty_iff in Hz. apply leibniz_equiv, Hz.
  - exfalso. apply Hnz. rewrite He. apply size_empty.
Qed.

Lemma ended_all_sources hs : forall s,
  sourcesRef (refs (ended_all hs s)) = sourcesRef (refs s) ∖ list_to_set hs.
Proof.
  induction hs as [|h hs IH]; intros s.
  - simpl. set_solver.
  - change (ended_all (h :: hs) s) with (ended_all hs (source_ended h s)).
    rewrite IH, source_ended_sources. set_solver.
Qed.

Lemma ended_all_keeps_flag hs : forall s,
  sourcesRef (refs s) ∖ list_to_set hs <> ∅ ->
  isSpeaking (view (ended_all hs s)) = isSpeaking (view s).
Proof.
  induction hs as [|h hs IH]; intros s Hrest; [reflexivity|].
  change (ended_all (h :: hs) s) with (ended_all hs (source_ended h s)).
  rewrite IH.
  - rewrite source_ended_speaking.
    destruct (decide (sourcesRef (refs s) ∖ {[h]} = ∅)) as [He|_];
      [|reflexivity].
    exfalso. apply Hrest. set_solver.
  - rewrite source_ended_sources. intros He. apply Hrest. set_solver.
Qed.

Lemma ended_all_clears_flag hs : forall s,
  hs <> [] -> sourcesRef (refs s) ⊆ list_to_set hs ->
  isSpeaking (view (ended_all hs s)) = false.
Proof.
  induction hs as [|h hs IH]; intros s Hne Hsub; [contradiction|].
  change (ended_all (h :: hs) s) with (ended_all hs (source_ended h s)).
  destruct hs as [|h' hs].
  - simpl. rewrite source_ended_speaking.
    destruct (decide (sourcesRef (refs s) ∖ {[h]} = ∅)) as [_|Hrest];
      [reflexivity|].
    exfalso. apply Hrest. set_solver.
  - apply IH; [discriminate|]. rewrite source_ended_sources. set_solver.
Qed.

(** X5. When the ['ended'] listeners of some sources have run, the active
    set has lost exactly those sources. The speaking flag is as before as
    long as an active source is left over, and it is off once the listeners
    of all active sources have run. *)
Theorem speaking_flag_follows_active_set (hs : list nat) (s : State) :
  sourcesRef (refs (ended_all hs s)) = sourcesRef (refs s) ∖ list_to_set hs
  /\ (sourcesRef (refs s) ∖ list_to_set hs <> ∅ ->
      isSpeaking (view (ended_all hs s)) = isSpeaking (view s))
  /\ (hs <> [] -> sourcesRef (refs s) ⊆ list_to_set hs ->
      isSpeaking (view (ended_all hs s)) = false).
Proof.
  split; [apply ended_all_sources|].
  split; [apply ended_all_keeps_flag|apply ended_all_clears_flag].
Qed.

(** X6. While a freshly enqueued source is active, the ['ended'] event of
    any other source, a stopped or stale one included, leaves the speaking
    flag on and the new source in the active set. *)
Theorem stale_ended_keeps_speaking (s : State) (now d : Z) (h : nat) :
  h <> nextSource (world s) ->
  let s' := source_ended h (enqueue now d s) in
  isSpeaking (view s') = true
  /\ nextSource (world s) ∈ sourcesRef (refs s')
  /\ nextStartTimeRef (refs s') = Z.max (nextStartTimeRef (refs s)) now + d
  /\ scheduled (world s') = scheduled (world (enqueue now d s)).
Proof.
  intros Hh s'. subst s'.
  assert (Hin : nextSource (world s)
                ∈ sourcesRef (refs (enqueue now d s)) ∖ {[h]}).
  { change (sourcesRef (refs (enqueue now d s)))
      with ({[nextSource (world s)]} ∪ sourcesRef (refs s)). set_solver. }
  split; [|split; [|split]].
  - rewrite source_ended_speaking.
    destruct (decide (sourcesRef (refs (enqueue now d s)) ∖ {[h]} = ∅))
      as [He|_]; [|reflexivity].
    rewrite He in Hin. set_solver.
  - rewrite source_ended_sources. exact Hin.
  - unfold source_ended. simpl.
    destruct (decide _); reflexivity.
  - unfold source_ended. simpl.
    destruct (decide _); reflexivity.
Qed.

(** A purge, new audio, then the late ['ended'] of the purged source 0. *)
Lemma stale_ended_keeps_speaking_witness :
  isSpeaking (view (source_ended 0 (enqueue 30000 12000 (purge speakingSession))))
  = true.
Proof.
  refine (proj1 (stale_ended_keeps_speaking (purge speakingSession)
                   30000 12000 0%nat _)).
  discriminate.
Defined.





(** ** SessionLifecycle: how [startAnalysis] ends *)

Lemma startAnalysis_outcome (env : StartEnv) (s : State) :
  finish_safe s ->
  env_deepgramConn env ∉ faultyClose (world s) ->
  exists s1,
    startAnalysis env s = Returned s1
    /\ faultyClose (world s1) = faultyClose (world s)
    /\ messages (view s1) = messages (view s)
    /\ start_postcondition env s s1.
Proof.
  destruct s as [[st msgs cap spk err md ut]
                 [vs sr sp dg ia oa on ns srcs mic tm]
                 [live tms conns faulty pl sch nx]].
  destruct env as [key disp cam micm dgc ag tid].
  intros Hsafe Hdg. unfold finish_safe in Hsafe. cbn in Hsafe, Hdg.
  unfold start_postcondition.
  destruct key; [|destruct oa, ia; start_cbn;
                   (eexists; split;
                    [apply stopCapture_stopped; exact Hsafe|]);
                   start_cbn; repeat split].
  assert (Hdg' : forall c, Some dgc = Some c -> c ∉ faulty).
  { intros c Hc. injection Hc as <-. exact Hdg. }
  destruct md, disp as [e1|ms], cam as [e2|ms'], micm as [e3|mc],
           ag as [e4|c], oa, ia;
    start_cbn;
    first [ (eexists; split; [reflexivity|]); start_cbn;
            repeat split; eexists; repeat split
          | (eexists; split;
             [apply stopCapture_stopped;
              first [exact Hsafe | exact Hdg']|]);
            start_cbn; repeat split ].
Qed.

(** X9. If its sockets close without raising, [startAnalysis] always
    returns, and it ends in one of two ways. When the key is present and
    the video request, the microphone request and the agent connection are
    all granted, the status is [CONNECTED], the component is capturing, no
    error is shown and the agent session is referenced. Otherwise the
    status is [DISCONNECTED], never [CONNECTING] or [ERROR], the component
    is not capturing, the message of the first failing step is shown, and
    neither connection is referenced. *)
Theorem startAnalysis_ends_connected_or_disconnected
    (env : StartEnv) (s : State) :
  finish_safe s ->
  env_deepgramConn env ∉ faultyClose (world s) ->
  exists s1,
    startAnalysis env s = Returned s1
    /\ match start_failure env s with
       | None =>
           status (view s1) = CONNECTED
           /\ isCapturing (view s1) = true
           /\ errorMsg (view s1) = None
           /\ (exists c, env_agent env = inr c /\ sessionRef (refs s1) = Some c
                         /\ sessionPromiseRef (refs s1) = Some (Fulfilled c))
           /\ deepgramConnectionRef (refs s1) = Some (env_deepgramConn env)
       | Some e =>
           status (view s1) = DISCONNECTED
           /\ isCapturing (view s1) = false
           /\ errorMsg (view s1) = Some e
           /\ sessionRef (refs s1) = None
           /\ deepgramConnectionRef (refs s1) = None
       end.
Proof.
  intros Hsafe Hdg.
  destruct (startAnalysis_outcome env s Hsafe Hdg) as (s1 & Hrun & _ & _ & Hpost).
  exists s1. split; [exact Hrun|exact Hpost].
Qed.

(** Everything granted in the quiet browser. *)
Lemma startAnalysis_ends_connected_or_disconnected_witness :
  exists s1,
    startAnalysis grantedEnv (initialState quietWorld) = Returned s1
    /\ status (view s1) = CONNECTED
    /\ isCapturing (view s1) = true.
Proof.
  destruct (startAnalysis_ends_connected_or_disconnected grantedEnv
              (initialState quietWorld)) as (s1 & Hrun & Hend).
  - intros c Hc. discriminate.
  - simpl. apply not_elem_of_empty.
  - exists s1. split; [exact Hrun|]. simpl in Hend.
    destruct Hend as (Hst & Hcap & _). split; assumption.
Defined.

(** X10. A start that fails keeps no connection and no timer beyond those
    the browser had before, and the only tracks it can leave live, beyond
    those live before, are tracks of the video stream it was granted; the
    tracks of a granted microphone stream are stopped. *)
Theorem failed_start_keeps_at_most_video_tracks
    (env : StartEnv) (s : State) (e : string) :
  start_failure env s = Some e ->
  finish_safe s ->
  env_deepgramConn env ∉ faultyClose (world s) ->
  exists s1,
    startAnalysis env s = Returned s1
    /\ openConns (world s1) ⊆ openConns (world s)
    /\ timers (world s1) ⊆ timers (world s)
    /\ (forall t, t ∈ liveTracks (world s1) ->
          t ∈ liveTracks (world s)
          \/ exists ms, selected_media env s = inr ms /\ t ∈ ms)
    /\ (forall ms mc t,
          env_deepgramKey env = true -> selected_media env s = inr ms ->
          env_micMedia env = inr mc -> t ∈ mc ->
          t ∉ liveTracks (world s1)).
Proof.
  destruct s as [[st msgs cap spk err md ut]
                 [vs sr sp dg ia oa on ns srcs mic tm]
                 [live tms conns faulty pl sch nx]].
  destruct env as [key disp cam micm dgc ag tid].
  intros Hfail Hsafe Hdg. unfold finish_safe in Hsafe. cbn in Hsafe, Hdg.
  assert (Hdg' : forall c, Some dgc = Some c -> c ∉ faulty).
  { intros c Hc. injection Hc as <-. exact Hdg. }
  assert (Hvideo : exists video, video = selected_media
            (mkStartEnv key disp cam micm dgc ag tid)
            (mkState (mkView st msgs cap spk err md ut)
                     (mkRefs vs sr sp dg ia oa on ns srcs mic tm)
                     (mkWorld live tms conns faulty pl sch nx))
          /\ video = match md with screen => disp | camera => cam end)
    by (eexists; split; reflexivity).
  destruct Hvideo as (video & Hsel & Hvideo). rewrite <- Hsel.
  assert (Hrun : forall b1 b2 : bool, exists s1,
    startAnalysis (mkStartEnv key disp cam micm dgc ag tid)
      (mkState (mkView st msgs cap spk err md ut)
               (mkRefs vs sr sp dg b1 b2 on ns srcs mic tm)
               (mkWorld live tms conns faulty pl sch nx)) = Returned s1
    /\ world s1
       = match key, video, micm with
         | true, inr ms, inl _ =>
             mkWorld ((list_to_set ms ∪ live) ∖ tracks_of mic ∖ tracks_of vs)
                     (tms ∖ timer_of tm)
                     (conns ∖ closed_session
                                (mkWorld live tms conns faulty pl sch nx) sr
                            ∖ conn_of dg)
                     faulty pl sch nx
         | true, inr ms, inr mc =>
             mkWorld ((list_to_set mc ∪ (list_to_set ms ∪ live))
                        ∖ list_to_set mc ∖ tracks_of vs)
                     (tms ∖ timer_of tm)
                     (({[dgc]} ∪ conns)
                        ∖ closed_session
                            (mkWorld live tms conns faulty pl sch nx) sr
                        ∖ {[dgc]})
                     faulty pl sch nx
         | _, _, _ =>
             mkWorld (live ∖ tracks_of mic ∖ tracks_of vs)
                     (tms ∖ timer_of tm)
                     (conns ∖ closed_session
                                (mkWorld live tms conns faulty pl sch nx) sr
                            ∖ conn_of dg)
                     faulty pl sch nx
         end).
  { intros b1 b2. subst video.
    destruct key;
      [|destruct b1, b2; start_cbn;
        (eexists; split; [apply stopCapture_stopped; exact Hsafe|]);
        reflexivity].
    destruct md;
      [destruct disp as [e1|ms]|destruct cam as [e1|ms]];
      try (destruct b1, b2; start_cbn;
           (eexists; split; [apply stopCapture_stopped; exact Hsafe|]);
           reflexivity);
      (destruct micm as [e3|mc];
       [destruct b1, b2; start_cbn;
        (eexists; split; [apply stopCapture_stopped; exact Hsafe|]);
        reflexivity|]);
      (destruct ag as [e4|c]; [|discriminate Hfail]);
      destruct b1, b2; start_cbn;
      (eexists; split; [apply stopCapture_stopped; exact Hdg'|]);
      reflexivity. }
  destruct (Hrun ia oa) as (s1 & Hs1 & Hw). exists s1.
  split; [exact Hs1|]. rewrite Hw. clear Hrun Hs1 Hw Hsel.
  destruct key; [|start_cbn; repeat split; try set_solver; discriminate].
  destruct video as [e1|ms];
    [start_cbn; repeat split; try set_solver; discriminate|].
  destruct micm as [e3|mc]; start_cbn.
  - repeat split; try set_solver; discriminate.
  - repeat split; set_solver.
Qed.

(** The agent connection is refused after both prompts were granted. *)
Lemma failed_start_keeps_at_most_video_tracks_witness :
  exists s1,
    startAnalysis
      (mkStartEnv true (inr [0%nat]) (inr [0%nat]) (inr [1%nat]) 10
                  (inl "handshake failed") 1)
      (initialState quietWorld) = Returned s1
    /\ openConns (world s1) ⊆ ∅
    /\ 1%nat ∉ liveTracks (world s1).
Proof.
  destruct (failed_start_keeps_at_most_video_tracks
              (mkStartEnv true (inr [0%nat]) (inr [0%nat]) (inr [1%nat]) 10
                          (inl "handshake failed") 1)
              (initialState quietWorld) "handshake failed")
    as (s1 & Hrun & Hconns & _ & _ & Hmic).
  - reflexivity.
  - intros c Hc. discriminate.
  - simpl. apply not_elem_of_empty.
  - exists s1. split; [exact Hrun|]. split; [exact Hconns|].
    apply (Hmic [0%nat] [1%nat] 1%nat eq_refl eq_refl eq_refl).
    apply list_elem_of_singleton. reflexivity.
Defined.

(** X11. A start in which everything is granted makes every granted track
    live, opens both connections and sets the frame timer; when the sockets
    close without raising and the granted tracks, connections and timer are
    new to the browser, a stop after it leaves the browser exactly as it
    was before the start, with the log untouched and no error shown. *)
Theorem start_then_stop_restores_browser
    (env : StartEnv) (s : State) (ms mc : MediaStream) (c : nat) :
  env_deepgramKey env = true ->
  selected_media env s = inr ms ->
  env_micMedia env = inr mc ->
  env_agent env = inr c ->
  c ∉ faultyClose (world s) ->
  env_deepgramConn env ∉ faultyClose (world s) ->
  (forall t, t ∈ ms \/ t ∈ mc -> t ∉ liveTracks (world s)) ->
  c ∉ openConns (world s) ->
  env_deepgramConn env ∉ openConns (world s) ->
  env_timer env ∉ timers (world s) ->
  exists s1 s2,
    startAnalysis env s = Returned s1
    /\ (forall t, t ∈ ms \/ t ∈ mc -> t ∈ liveTracks (world s1))
    /\ c ∈ openConns (world s1)
    /\ env_deepgramConn env ∈ openConns (world s1)
    /\ env_timer env ∈ timers (world s1)
    /\ stopCapture s1 = Returned s2
    /\ world s2 = world s
    /\ messages (view s2) = messages (view s)
    /\ errorMsg (view s2) = None
    /\ status (view s2) = DISCONNECTED.
Proof.
  destruct s as [[st msgs cap spk err md ut]
                 [vs sr sp dg ia oa on ns srcs mic tm]
                 [live tms conns faulty pl sch nx]].
  destruct env as [key disp cam micm dgc ag tid].
  unfold selected_media. cbn.
  intros -> Hsel -> -> Hc Hdg Hfresh Hcn Hdgn Htid.
  assert (Hdg' : forall c0, Some dgc = Some c0 -> c0 ∉ faulty).
  { intros c0 Hc0. injection Hc0 as <-. exact Hdg. }
  assert (Hlive : forall t, t ∈ (list_to_set ms ∪ list_to_set mc : gset nat)
                            -> t ∉ live).
  { intros t Ht. apply Hfresh.
    rewrite elem_of_union, !elem_of_list_to_set in Ht. exact Ht. }
  clear Hfresh.
  destruct md; subst; destruct oa, ia; start_cbn;
    (eexists; eexists; split; [reflexivity|]); start_cbn;
    (split; [intros t Ht; rewrite !elem_of_union, !elem_of_list_to_set; tauto|]);
    (split; [set_solver|]); (split; [set_solver|]); (split; [set_solver|]);
    (split; [apply stopCapture_stopped; exact Hdg'|]);
    start_cbn; unfold closed_session; cbn [faultyClose];
    (destruct (decide (c ∈ faulty)) as [Hin|_]; [contradiction|]);
    (split; [f_equal; set_solver|]); repeat split.
Qed.

(** The quiet browser, everything granted. *)
Lemma start_then_stop_restores_browser_witness :
  exists s1 s2,
    startAnalysis grantedEnv (initialState quietWorld) = Returned s1
    /\ stopCapture s1 = Returned s2
    /\ world s2 = quietWorld.
Proof.
  destruct (start_then_stop_restores_browser grantedEnv
              (initialState quietWorld) [0%nat] [1%nat] 20)
    as (s1 & s2 & Hstart & _ & _ & _ & _ & Hstop & Hworld & _);
    try reflexivity; try (simpl; apply not_elem_of_empty).
  - intros t _. simpl. apply not_elem_of_empty.
  - exists s1, s2. repeat split; assumption.
Defined.

(** ** SessionLifecycle: teardown from the outside *)

Lemma stopCapture_messages (s : State) :
  messages (view (outcome_state (stopCapture s))) = messages (view s)
  /\ faultyClose (world (outcome_state (stopCapture s))) = faultyClose (world s).
Proof.
  destruct s as [v [vs sr sp dg ia oa on ns srcs mic tm]
                   [live tms conns faulty pl sch nx]].
  unfold stopCapture. simpl.
  destruct tm as [id|], mic as [ms|], vs as [vms|], sr as [c0|];
    simpl; unfold conn_close; simpl;
    try (destruct (decide (c0 ∈ faulty)) as [Hc0|Hc0]; simpl);
    (destruct dg as [c|]; simpl;
     [destruct (decide (c ∈ faulty)) as [Hc|Hc]; simpl|]);
    split; reflexivity.
Qed.


Lemma stopCapture_returned (s s1 : State) :
  stopCapture s = Returned s1 -> s1 = stopped s.
Proof.
  intros Hstop.
  destruct (deepgramConnectionRef (refs s)) as [c|] eqn:Hdg.
  - destruct (decide (c ∈ faultyClose (world s))) as [Hc|Hc].
    + destruct (stopCapture_finish_raises s c Hdg Hc) as [Hr _].
      rewrite Hstop in Hr. discriminate.
    + rewrite stopCapture_stopped in Hstop; [congruence|].
      intros c' Hc'. congruence.
  - rewrite stopCapture_stopped in Hstop; [congruence|].
    intros c' Hc'. congruence.
Qed.
(** X12. When [finish()] of the transcription connection raises,
    [stopCapture] raises with it: the timer is already cancelled, the
    tracks of the microphone and of the attached video stream stopped and
    the agent session forgotten, but no flag is reset, the transcription
    connection stays referenced, and calling [stopCapture] again raises
    again. *)
Theorem stopCapture_aborts_when_finish_raises (s : State) (c : nat) :
  deepgramConnectionRef (refs s) = Some c ->
  c ∈ faultyClose (world s) ->
  let s' := outcome_state (stopCapture s) in
  returned (stopCapture s) = false
  /\ view s' = view s
  /\ deepgramConnectionRef (refs s') = Some c
  /\ sessionRef (refs s') = None
  /\ videoSrcObject (refs s') = None
  /\ (forall ms t, micStreamRef (refs s) = Some ms -> t ∈ ms ->
                   t ∉ liveTracks (world s'))
  /\ (forall vs t, videoSrcObject (refs s) = Some vs -> t ∈ vs ->
                   t ∉ liveTracks (world s'))
  /\ (forall id, captureIntervalRef (refs s) = Some id ->
                 id ∉ timers (world s'))
  /\ returned (stopCapture s') = false.
Proof.
  intros Hdg Hc s'.
  assert (Hfirst :
    returned (stopCapture s) = false
    /\ view s' = view s
    /\ deepgramConnectionRef (refs s') = Some c
    /\ sessionRef (refs s') = None
    /\ videoSrcObject (refs s') = None
    /\ (forall ms t, micStreamRef (refs s) = Some ms -> t ∈ ms ->
                     t ∉ liveTracks (world s'))
    /\ (forall vs t, videoSrcObject (refs s) = Some vs -> t ∈ vs ->
                     t ∉ liveTracks (world s'))
    /\ (forall id, captureIntervalRef (refs s) = Some id ->
                   id ∉ timers (world s'))).
  { subst s'.
    destruct s as [v [vs sr sp dg ia oa on ns srcs mic tm]
                     [live tms conns faulty pl sch nx]].
    simpl in Hdg, Hc. subst dg. unfold stopCapture. simpl.
    destruct tm as [id|], mic as [ms|], vs as [vms|], sr as [c0|];
      simpl; unfold conn_close; simpl;
      try (destruct (decide (c0 ∈ faulty)) as [Hc0|Hc0]; simpl);
      (destruct (decide (c ∈ faulty)) as [_|Hn]; [|contradiction]);
      simpl;
      (split; [reflexivity|]); (split; [reflexivity|]);
      (split; [reflexivity|]); (split; [reflexivity|]);
      (split; [reflexivity|]);
      (split; [|split]);
      try discriminate;
      try (intros ? t Heq Ht; injection Heq as <-);
      try (intros ? Heq; injection Heq as <-);
      rewrite ?stop_tracks_fold; set_solver. }
  destruct Hfirst as (H1 & H2 & H3 & H4 & H5 & H6 & H7 & H8).
  repeat (split; [assumption|]).
  apply (stopCapture_finish_raises s' c H3).
  subst s'. rewrite (proj2 (stopCapture_messages s)). exact Hc.
Qed.

(** A live session whose transcription socket raises on [finish()]. *)
Lemma stopCapture_aborts_when_finish_raises_witness :
  let brittle := outcome_state
                   (startAnalysis grantedEnv
                      (initialState (mkWorld ∅ ∅ ∅ {[10%nat]} ∅ [] 0))) in
  returned (stopCapture brittle) = false
  /\ isCapturing (view (outcome_state (stopCapture brittle))) = true.
Proof.
  intros brittle.
  destruct (stopCapture_aborts_when_finish_raises brittle 10)
    as (Hret & Hview & _).
  - reflexivity.
  - simpl. apply elem_of_singleton. reflexivity.
  - split; [exact Hret|]. rewrite Hview. reflexivity.
Defined.

(** X13. An error of the agent connection shows the agent's message and
    tears the session down; the status it leaves is [DISCONNECTED], not
    [ERROR], and the close event that follows the error changes nothing. *)
Theorem agent_error_tears_down (s : State) :
  finish_safe s ->
  exists s1,
    agent_onerror s = Returned s1
    /\ errorMsg (view s1) = Some agent_error_message
    /\ status (view s1) = DISCONNECTED
    /\ isCapturing (view s1) = false
    /\ sessionRef (refs s1) = None
    /\ deepgramConnectionRef (refs s1) = None
    /\ (forall ms t, micStreamRef (refs s) = Some ms -> t ∈ ms ->
                     t ∉ liveTracks (world s1))
    /\ (forall vs t, videoSrcObject (refs s) = Some vs -> t ∈ vs ->
                     t ∉ liveTracks (world s1))
    /\ (forall id, captureIntervalRef (refs s) = Some id ->
                   id ∉ timers (world s1))
    /\ agent_onclose s1 = Returned s1.
Proof.
  intros Hsafe. unfold agent_onerror, agent_onclose.
  exists (stopped (setErrorMsg (Some agent_error_message) (setStatus ERROR s))).
  split; [apply stopCapture_stopped; exact Hsafe|].
  assert (Hidem :
    stopCapture (stopped (setErrorMsg (Some agent_error_message)
                                      (setStatus ERROR s)))
    = Returned (stopped (setErrorMsg (Some agent_error_message)
                                     (setStatus ERROR s)))).
  { rewrite (stopCapture_stopped _ (stopped_finish_safe _)).
    rewrite stopped_idempotent. reflexivity. }
  destruct s as [v [vs sr sp dg ia oa on ns srcs mic tm]
                   [live tms conns faulty pl sch nx]].
  simpl. repeat split; try exact Hidem.
  - intros ms t -> Ht. set_solver.
  - intros vs' t -> Ht. set_solver.
  - intros id ->. set_solver.
Qed.

(** An agent error on the live session. *)
Lemma agent_error_tears_down_witness :
  exists s1,
    agent_onerror liveSession = Returned s1
    /\ errorMsg (view s1) = Some agent_error_message
    /\ status (view s1) = DISCONNECTED.
Proof.
  destruct (agent_error_tears_down liveSession) as (s1 & Hrun & Hmsg & Hst & _).
  - intros c Hc. simpl. apply not_elem_of_empty.
  - exists s1. repeat split; assumption.
Defined.

(** ** The pumps after a stop *)

(** X14. After a stop that returned, the audio callback still hands every
    block to the send of the agent session it captured, and to nothing
    else: the transcription connection gets no more audio, whatever its
    ready state. *)
Theorem audio_after_stop_goes_to_agent_only {Block Blob : Type}
    (createAudioBlob : Block -> Blob) (session : nat)
    (getReadyState : nat -> Z) (inputData : Block) (s s1 : State) :
  stopCapture s = Returned s1 ->
  onaudioprocess createAudioBlob session getReadyState inputData s1
  = [ToAgent session (createAudioBlob inputData)].
Proof.
  intros Hstop. apply stopCapture_returned in Hstop. subst s1.
  reflexivity.
Qed.

(** A stop of the live session, then a block while socket 10 still
    reports ready state 1. *)
Lemma audio_after_stop_goes_to_agent_only_witness :
  onaudioprocess (fun block : list Z => block) 20 (fun _ => 1) [0; 0]
                 (stopped liveSession)
  = [ToAgent 20 [0; 0]].
Proof.
  apply (audio_after_stop_goes_to_agent_only (fun block : list Z => block)
           20 (fun _ => 1) [0; 0] liveSession).
  apply stopCapture_stopped. intros c Hc. simpl. apply not_elem_of_empty.
Defined.

(** ** The component under any sequence of events *)

Lemma startAnalysis_try_frame (env : StartEnv) (s : State) :
  messages (view (outcome_state (startAnalysis_try env s))) = messages (view s)
  /\ faultyClose (world (outcome_state (startAnalysis_try env s)))
     = faultyClose (world s).
Proof.
  destruct s as [[st msgs cap spk err md ut]
                 [vs sr sp dg ia oa on ns srcs mic tm]
                 [live tms conns faulty pl sch nx]].
  destruct env as [key disp cam micm dgc ag tid].
  destruct key; [|split; reflexivity].
  destruct md, disp as [e1|ms], cam as [e2|ms'], micm as [e3|mc],
           ag as [e4|c], oa, ia; split; reflexivity.
Qed.

Lemma startAnalysis_frame (env : StartEnv) (s : State) :
  messages (view (outcome_state (startAnalysis env s))) = messages (view s)
  /\ faultyClose (world (outcome_state (startAnalysis env s)))
     = faultyClose (world s).
Proof.
  pose proof (startAnalysis_try_frame env s) as Htry.
  unfold startAnalysis.
  destruct (startAnalysis_try env s) as [s'|e s']; simpl in Htry;
    [exact Htry|].
  destruct (stopCapture_messages
              (setStatus ERROR (setErrorMsg (Some e) s'))) as [Hm Hf].
  rewrite Hm, Hf. exact Htry.
Qed.

Lemma step_messages (e : Event) (s : State) :
  messages (view (step e s)) = messages (view s)
  \/ exists now r t,
       messages (view (step e s)) = addMessage now r t (messages (view s)).
Proof.
  destruct e as [env|ct dec now m| | |now data| |h]; simpl.
  - left. unfold main_button. destruct (isCapturing (view s)).
    + apply stopCapture_messages.
    + apply startAnalysis_frame.
  - unfold onmessage, onmessage_tail.
    destruct (audio_guard m s), dec as [d|],
             (outputTranscription m) as [t|], (interrupted m);
      simpl; first [left; reflexivity | right; eexists _, _, _; reflexivity].
  - left. unfold agent_onerror.
    rewrite (proj1 (stopCapture_messages _)). reflexivity.
  - left. apply stopCapture_messages.
  - unfold deepgram_on_transcript.
    destruct (decide (transcript data = "")); [left; reflexivity|].
    destruct (is_final data && speech_final data);
      [right; eexists _, _, _; reflexivity|left; reflexivity].
  - left. reflexivity.
  - left. unfold source_ended. simpl. destruct (decide _); reflexivity.
Qed.

(** X15. Whatever happens to the component, in whatever order (button
    presses, agent messages, errors and closes, transcript events, ended
    sources), its log has at most five entries, none with empty text, and no
    two assistant entries next to each other. *)
Theorem log_invariants_under_any_run (w : World) (es : list Event) :
  let log := messages (view (run es (initialState w))) in
  (length log <= 5)%nat
  /\ Forall (fun m => text m <> "") log
  /\ adjacent_assistants log = false.
Proof.
  assert (Hgen : forall s,
    ((length (messages (view s)) <= 5)%nat
     /\ Forall (fun m => text m <> "") (messages (view s))
     /\ no_adjacent_assistants (messages (view s))) ->
    ((length (messages (view (run es s))) <= 5)%nat
     /\ Forall (fun m => text m <> "") (messages (view (run es s)))
     /\ no_adjacent_assistants (messages (view (run es s))))).
  { induction es as [|e es IH]; intros s Hs; [exact Hs|].
    change (run (e :: es) s) with (run es (step e s)).
    apply IH. destruct Hs as (Hlen & Hblank & Hadj).
    destruct (step_messages e s) as [->|(now & r & t & ->)].
    - repeat split; assumption.
    - split; [apply addMessage_length, Hlen|].
      split; [apply addMessage_no_blank, Hblank
             |apply addMessage_no_adjacent, Hadj]. }
  destruct (Hgen (initialState w)) as (Hlen & Hblank & Hadj).
  { simpl. split; [lia|]. split; [constructor|].
    intros i a b Ha. discriminate. }
  split; [exact Hlen|]. split; [exact Hblank|].
  apply no_adjacent_check, Hadj.
Qed.

Lemma up_or_down_core (s s' : State) :
  status (view s') = status (view s) ->
  isCapturing (view s') = isCapturing (view s) ->
  sessionRef (refs s') = sessionRef (refs s) ->
  sessionPromiseRef (refs s') = sessionPromiseRef (refs s) ->
  session_up s \/ session_down s -> session_up s' \/ session_down s'.
Proof.
  unfold session_up, session_down. intros -> -> -> ->. tauto.
Qed.

Lemma stopped_down (s : State) : session_down (stopped s).
Proof. repeat split. Qed.

Lemma step_up_or_down (e : Event) (s : State) :
  faultyClose (world s) = ∅ ->
  session_up s \/ session_down s ->
  faultyClose (world (step e s)) = ∅
  /\ (session_up (step e s) \/ session_down (step e s)).
Proof.
  intros Hfaulty Hinv.
  assert (Hsafe : forall s0, faultyClose (world s0) = ∅ -> finish_safe s0).
  { intros s0 H0 c _. rewrite H0. apply not_elem_of_empty. }
  destruct e as [env|ct dec now m| | |now data| |h]; cbn [step].
  - unfold main_button. destruct (isCapturing (view s)).
    + rewrite (stopCapture_stopped s (Hsafe s Hfaulty)). cbn [outcome_state].
      split; [exact Hfaulty|right; apply stopped_down].
    + destruct (startAnalysis_outcome env s (Hsafe s Hfaulty))
        as (s1 & Hrun & Hf & _ & Hpost).
      { rewrite Hfaulty. apply not_elem_of_empty. }
      rewrite Hrun. cbn [outcome_state]. split; [congruence|].
      unfold start_postcondition in Hpost.
      destruct (start_failure env s) as [msg|].
      * right. unfold session_down. tauto.
      * left. unfold session_up.
        destruct Hpost as (Hst & Hcap & _ & (c & _ & Hc & Hp) & _).
        repeat split; try assumption. exists c. split; assumption.
  - unfold onmessage, onmessage_tail.
    destruct (audio_guard m s), dec as [d|],
             (outputTranscription m) as [t|], (interrupted m);
      cbn [outcome_state]; (split; [exact Hfaulty|]);
      apply (up_or_down_core s); try reflexivity; exact Hinv.
  - unfold agent_onerror.
    rewrite (stopCapture_stopped _
               (Hsafe (setErrorMsg (Some agent_error_message)
                                   (setStatus ERROR s)) Hfaulty)).
    cbn [outcome_state].
    split; [exact Hfaulty|right; apply stopped_down].
  - unfold agent_onclose.
    rewrite (stopCapture_stopped _ (Hsafe _ Hfaulty)). cbn [outcome_state].
    split; [exact Hfaulty|right; apply stopped_down].
  - split.
    + unfold deepgram_on_transcript.
      destruct (decide (transcript data = "")); [exact Hfaulty|].
      destruct (is_final data && speech_final data); exact Hfaulty.
    + apply (up_or_down_core s); try exact Hinv;
        unfold deepgram_on_transcript;
        destruct (decide (transcript data = "")); try reflexivity;
        destruct (is_final data && speech_final data); reflexivity.
  - split; [exact Hfaulty|].
    apply (up_or_down_core s); try reflexivity; exact Hinv.
  - split.
    + unfold source_ended. simpl. destruct (decide _); exact Hfaulty.
    + apply (up_or_down_core s); try exact Hinv;
        unfold source_ended; simpl; destruct (decide _); reflexivity.
Qed.

(** X16. In a browser whose sockets close without raising, after any
    sequence of events the component is in one of two conditions. Either
    it is connected and capturing with the agent session referenced, and
    then a tick on a decoded surface starts an encode and the delivered
    frame is sent to exactly that session; or it is disconnected, not
    capturing and references no agent session. The statuses [CONNECTING]
    and [ERROR] are never left behind by an event. *)
Theorem connected_or_disconnected_under_any_run (w : World) (es : list Event) :
  faultyClose w = ∅ ->
  let s := run es (initialState w) in
  (status (view s) = CONNECTED /\ isCapturing (view s) = true
   /\ exists c, sessionRef (refs s) = Some c
        /\ forall video base64Data, 0 < videoWidth video ->
             tick_begin true video s = true
             /\ tick_encoded (Some base64Data) s
                = Returned [mkFrameSend c base64Data])
  \/ (status (view s) = DISCONNECTED /\ isCapturing (view s) = false
      /\ sessionRef (refs s) = None).
Proof.
  intros Hw.
  assert (Hgen : forall s0,
    faultyClose (world s0) = ∅ -> session_up s0 \/ session_down s0 ->
    session_up (run es s0) \/ session_down (run es s0)).
  { induction es as [|e es IH]; intros s0 Hf Hinv; [exact Hinv|].
    change (run (e :: es) s0) with (run es (step e s0)).
    destruct (step_up_or_down e s0 Hf Hinv) as [Hf' Hinv'].
    apply IH; assumption. }
  destruct (Hgen (initialState w) Hw) as [Hup|Hdown].
  - right. repeat split.
  - left. destruct Hup as (Hst & Hcap & c & Hc & Hp).
    repeat split; try assumption. exists c. split; [exact Hc|].
    intros video b Hwd. unfold tick_begin, tick_encoded. rewrite Hp.
    split; [|reflexivity]. simpl. apply bool_decide_eq_true_2, Hwd.
  - right. exact Hdown.
Qed.

(** Start, an agent message with audio and text, a transcript, and the
    end of the source, in the quiet browser. *)
Lemma connected_or_disconnected_under_any_run_witness :
  status (view (run [MainButton grantedEnv;
                     AgentMessage 0 (Some 48000) 5
                       (mkLiveServerMessage (Some "UklGRg") (Some "Certo.") false);
                     Transcript 6 (mkTranscriptEvent "compra" true true);
                     SourceEnded 0]
                    (initialState quietWorld))) = CONNECTED.
Proof.
  destruct (connected_or_disconnected_under_any_run quietWorld
              [MainButton grantedEnv;
               AgentMessage 0 (Some 48000) 5
                 (mkLiveServerMessage (Some "UklGRg") (Some "Certo.") false);
               Transcript 6 (mkTranscriptEvent "compra" true true);
               SourceEnded 0] eq_refl) as [(Hst & _)|(Hst & _)].
  - exact Hst.
  - exfalso. vm_compute in Hst. discriminate.
Defined.

(** X17. After a stop of a session that referenced its agent session, the
    frame timer is cancelled and a tick that fires all the same returns at
    its guard: no frame is handed to the encoder. *)
Theorem tick_after_stop_is_skipped (s s1 : State) (c : nat) :
  sessionRef (refs s) = Some c ->
  stopCapture s = Returned s1 ->
  (forall id, captureIntervalRef (refs s) = Some id -> id ∉ timers (world s1))
  /\ forall has2d video, tick_begin has2d video s1 = false.
Proof.
  intros Hc Hstop. apply stopCapture_returned in Hstop. subst s1.
  split.
  - intros id Hid. unfold stopped. cbn [world timers]. rewrite Hid.
    cbn [timer_of]. set_solver.
  - intros has2d video. unfold tick_begin, stopped.
    cbn [refs sessionPromiseRef]. rewrite Hc. reflexivity.
Qed.

(** A stop of the live session. *)
Lemma tick_after_stop_is_skipped_witness :
  tick_begin true (mkVideoSurface 1280 720) (stopped liveSession) = false.
Proof.
  refine (proj2 (tick_after_stop_is_skipped liveSession (stopped liveSession)
                   20 eq_refl _) true (mkVideoSurface 1280 720)).
  apply stopCapture_stopped. intros c Hc. simpl. apply not_elem_of_empty.
Defined.

(** X18. The security check made on mount shows its warning exactly on a
    page that is neither served over https nor on localhost, and it is
    advisory only: [startAnalysis] runs the same way with or without the
    warning, and removes it. *)
Theorem security_warning_does_not_gate_start
    (protocol hostname : string) (env : StartEnv) (s : State) :
  (errorMsg (view (security_check protocol hostname s))
   = if bool_decide (protocol <> "https:") && bool_decide (hostname <> "localhost")
     then Some security_error_message else errorMsg (view s))
  /\ startAnalysis env (security_check protocol hostname s)
     = startAnalysis env s.
Proof.
  unfold security_check.
  destruct (bool_decide (protocol <> "https:")
            && bool_decide (hostname <> "localhost"));
    split; reflexivity.
Qed.
